(** * westures-core: input tracking and dispatch

    A shallow embedding of [src/PointerData.js], [src/Input.js] and
    [src/Region.js], with the collaborators whose sources are not part of
    the tree ([PHASE.js], [Point2D.js], [State.js], [Binding.js]) modelled
    from the specification, followed by the properties of the engine.

    Conventions of the embedding:
    - a DOM object (element, [document], [window]) is its identity, a
      [positive]; the [parentNode] chain hanging off [event.target] is the
      inductive [DomNode];
    - everything that allocates, reads the clock or may throw runs in the
      monad [M], a state monad over [World] with errors;
    - a [PointerData] is never mutated after its construction, so it is
      represented by its fields together with the identity [oid] it got
      from the allocator; [===] on two of them is equality of [oid];
    - the scratch records handed out by [Input.getProgressOfGesture] are
      mutable and shared, so they live in the store [records] of the world
      and are referred to by address;
    - coordinates are only copied from the event, never computed with:
      they are integers here. *)

From Stdlib Require Import ZArith Lia.
From stdpp Require Import gmap strings list fin_maps.

Open Scope Z_scope.
Set Warnings "-register-all".

(** ** Values, world and the effect monad *)

Inductive JsValue :=
| VUndefined
| VNull
| VBool (b : bool)
| VNum (n : Z)
| VStr (s : string)
| VObj (fields : list (string * JsValue)).

(** [v == null] in JavaScript: true of [null] and [undefined] only. *)
Definition isNullish (v : JsValue) : bool :=
  match v with
  | VUndefined | VNull => true
  | _ => false
  end.

Inductive Error :=
| TypeError (what : string).

Record World := mkWorld {
  clock   : Z;                                  (* what Date.now() returns *)
  nextId  : positive;                           (* next fresh object identity *)
  records : gmap positive (gmap string JsValue) (* the scratch records *)
}.

Definition M (A : Type) : Type := World -> Error + (A * World).

Definition ret {A} (a : A) : M A := fun w => inr (a, w).

Definition bind {A B} (m : M A) (k : A -> M B) : M B :=
  fun w => match m w with
           | inl e => inl e
           | inr (a, w') => k a w'
           end.

Definition throw {A} (e : Error) : M A := fun _ => inl e.

Declare Scope js_scope.
Delimit Scope js_scope with js.
Notation "x <- m ;; k" := (bind m (fun x => k))
  (at level 100, m at next level, right associativity) : js_scope.
Open Scope js_scope.

(** [Date.now()] *)
Definition Date_now : M Z := fun w => inr (clock w, w).

(** The identity given to the object a [new] expression creates. *)
Definition fresh : M positive :=
  fun w => inr (nextId w,
                {| clock := clock w; nextId := Pos.succ (nextId w);
                   records := records w |}).

(** [{}]: a new empty record in the store. *)
Definition newRecord : M positive :=
  fun w => inr (nextId w,
                {| clock := clock w; nextId := Pos.succ (nextId w);
                   records := <[nextId w := ∅]> (records w) |}).

(** [r.field = v] on the record at address [r]. *)
Definition setField (r : positive) (field : string) (v : JsValue) : M unit :=
  fun w => match records w !! r with
           | None => inl (TypeError "not a record")
           | Some rec =>
               inr (tt, {| clock := clock w; nextId := nextId w;
                           records := <[r := <[field := v]> rec]> (records w) |})
           end.

Fixpoint foldM {A B} (f : A -> B -> M A) (l : list B) (a : A) : M A :=
  match l with
  | [] => ret a
  | b :: l' => a' <- f a b ;; foldM f l' a'
  end.

(** ** The DOM and raw events *)

Definition Element := positive.

Definition document : Element := 1%positive.
Definition window : Element := 2%positive.

(** What a reference to a node evaluates to, as seen from an event: [null]
    (or [undefined]), or an object with its identity and its [parentNode]. *)
Inductive DomNode :=
| Null
| Node (self : Element) (parentNode : DomNode).

Module Touch.
Record t := mk {
  identifier : Z;
  clientX : Z;
  clientY : Z
}.
End Touch.

Module Event.
Record t := mk {
  type : string;
  target : DomNode;
  clientX : Z;
  clientY : Z;
  changedTouches : option (list Touch.t);  (* absent on mouse and pointer events *)
  composedPath : option (list Element);    (* the method, when there is one, and what it returns *)
  timeStamp : Z
}.
End Event.

Inductive Phase := PStart | PMove | PEnd | PCancel.

Global Instance Phase_eq_dec : EqDecision Phase.
Proof. solve_decision. Defined.

(** Modelled from the spec: [PHASE.js] is not in the tree. The fixed
    type-to-phase table: every start-family event type maps to start, every
    move-family type to move, every end- or cancel-family type to end or
    cancel; the families are those [Region.js] lists. Any other type has no
    entry ([undefined]). *)
Definition PHASE_table : list (string * Phase) :=
  [ ("mousedown", PStart); ("touchstart", PStart); ("pointerdown", PStart);
    ("mousemove", PMove); ("touchmove", PMove); ("pointermove", PMove);
    ("mouseup", PEnd); ("touchend", PEnd); ("pointerup", PEnd);
    ("touchcancel", PCancel); ("pointercancel", PCancel) ]%string.

Definition PHASE (ty : string) : option Phase :=
  snd <$> List.find (fun e => String.eqb (fst e) ty) PHASE_table.

(** ** PointerData.js *)

(** Modelled from the spec: [Point2D.js] is not in the tree. A point
    stores the two coordinates it is given. *)
Module Point2D.
Record t := mk { x : Z; y : Z }.
End Point2D.

Module PointerData.

Record t := mk {
  oid : positive;
  originalEvent : Event.t;
  type : option Phase;
  time : Z;
  point : Point2D.t
}.

(** What [getEventObject] hands back: one of the changed touches or the
    event itself. *)
Inductive EventObject :=
| OfTouch (t : Touch.t)
| OfEvent (e : Event.t).

Definition eo_clientX (o : EventObject) : Z :=
  match o with
  | OfTouch t => Touch.clientX t
  | OfEvent e => Event.clientX e
  end.

Definition eo_clientY (o : EventObject) : Z :=
  match o with
  | OfTouch t => Touch.clientY t
  | OfEvent e => Event.clientY e
  end.

(** [None] is the [undefined] that [Array.prototype.find] returns when
    nothing matches. *)
Definition getEventObject (event : Event.t) (identifier : Z)
  : option EventObject :=
  match Event.changedTouches event with
  | Some touches =>
      OfTouch <$>
        List.find (fun t => Z.eqb (Touch.identifier t) identifier) touches
  | None => Some (OfEvent event)
  end.

(** [new PointerData(event, identifier)]; [event] is [None] when the
    argument is missing. *)
Definition constructor (event : option Event.t) (identifier : Z) : M t :=
  this <- fresh ;;
  match event with
  | None => throw (TypeError "cannot read property 'type' of undefined")
  | Some ev =>
      let type := PHASE (Event.type ev) in
      time <- Date_now ;;
      match getEventObject ev identifier with
      | None => throw (TypeError "cannot read property 'clientX' of undefined")
      | Some eventObj =>
          ret {| oid := this;
                 originalEvent := ev;
                 type := type;
                 time := time;
                 point := Point2D.mk (eo_clientX eventObj) (eo_clientY eventObj) |}
      end
  end.

End PointerData.

(** ** Input.js *)

(** The properties every object inherits from [Object.prototype]. Each of
    them holds a built-in object (a function, and for [__proto__] the
    prototype itself), which is truthy. A property read [o[id]] on a plain
    object [o] finds them when [o] has no property [id] of its own. *)
Definition Object_prototype : list string :=
  [ "constructor"; "hasOwnProperty"; "isPrototypeOf"; "propertyIsEnumerable";
    "toLocaleString"; "toString"; "valueOf"; "__proto__";
    "__defineGetter__"; "__defineSetter__";
    "__lookupGetter__"; "__lookupSetter__" ]%string.

Definition inherited (id : string) : bool :=
  existsb (String.eqb id) Object_prototype.

(** What [getProgressOfGesture] hands back: a scratch record of the store,
    by its address, or the built-in object that the property [name] of
    [Object.prototype] holds. *)
Inductive ObjRef :=
| RecordAt (r : positive)
| Builtin (name : string).

Module Input.

(** [initialElements] is the WeakSet of the start elements. [progress] is
    the object used as a table from the id of a gesture to its scratch
    record: its own properties, each holding the address of a record. *)
Record t := mk {
  initialElements : gset Element;
  initial : PointerData.t;
  current : PointerData.t;
  previous : PointerData.t;
  identifier : Z;
  progress : gmap string positive
}.

(** The loop of [getPropagationPath]: push nodes until [document] is
    reached. When the chain leaves the tree before [document], [null] is
    pushed and the next [node.parentNode] throws. *)
Fixpoint walkToDocument (node : DomNode) : Error + list Element :=
  match node with
  | Null => inl (TypeError "cannot read property 'parentNode' of null")
  | Node self parentNode =>
      if Pos.eqb self document then inr []
      else match walkToDocument parentNode with
           | inl e => inl e
           | inr path => inr (self :: path)
           end
  end.

Definition getPropagationPath (event : Event.t) : Error + list Element :=
  match Event.composedPath event with
  | Some path => inr path
  | None =>
      match walkToDocument (Event.target event) with
      | inl e => inl e
      | inr path => inr (path ++ [document; window])
      end
  end.

Definition getElementsInPath (event : Event.t) : M (gset Element) :=
  fun w => match getPropagationPath event with
           | inl e => inl e
           | inr path => inr (list_to_set path, w)
           end.

(** [new Input(event, identifier)]. Without an event the construction of
    the PointerData has thrown already. *)
Definition constructor (event : option Event.t) (identifier : Z) : M t :=
  currentData <- PointerData.constructor event identifier ;;
  match event with
  | None => throw (TypeError "cannot read property 'composedPath' of undefined")
  | Some ev =>
      initialElements <- getElementsInPath ev ;;
      ret {| initialElements := initialElements;
             initial := currentData;
             current := currentData;
             previous := currentData;
             identifier := identifier;
             progress := ∅ |}
  end.

Definition phase (this : t) : option Phase :=
  PointerData.type (current this).

Definition startTime (this : t) : Z :=
  PointerData.time (initial this).

(** [this.progress[id]] is read three times at most. The read finds the
    property of [progress] itself when there is one, and otherwise the
    property of that name that [progress], a plain object, inherits: the
    test then sees a truthy value, nothing is created, and the built-in
    object is what is returned. Returns the object, and the input, whose
    [progress] table gained an entry when a record was created. *)
Definition getProgressOfGesture (id : string) (this : t) : M (ObjRef * t) :=
  match progress this !! id with
  | Some r => ret (RecordAt r, this)
  | None =>
      if inherited id then ret (Builtin id, this)
      else
        r <- newRecord ;;
        ret (RecordAt r,
             {| initialElements := initialElements this;
                initial := initial this;
                current := current this;
                previous := previous this;
                identifier := identifier this;
                progress := <[id := r]> (progress this) |})
  end.

Definition update (event : option Event.t) (this : t) : M t :=
  let previous := current this in
  current <- PointerData.constructor event (identifier this) ;;
  ret {| initialElements := initialElements this;
         initial := initial this;
         current := current;
         previous := previous;
         identifier := identifier this;
         progress := progress this |}.

Definition wasInitiallyInside (element : Element) (this : t) : bool :=
  bool_decide (element ∈ initialElements this).

End Input.

(** ** State.js *)

Module State.

(** Modelled from the spec: [State.js] is not in the tree. The registry
    of the inputs that are alive: a mapping from identifier to input,
    with unique keys. *)
Abbreviation t := (gmap Z Input.t).

(** The function that extracts the (identifier, isNewContact) pairs a raw
    event carries; the registry is handed one. *)
Definition Extractor := Event.t -> list (Z * bool).

Definition inputs (this : t) : list Input.t := (map_to_list this).*2.

(** Modelled from the spec: one pair of a reconciliation. If the
    identifier is unknown, construct and insert a new input; otherwise
    call [update] on the existing one. *)
Definition updateInput (event : Event.t) (identifier : Z) (this : t) : M t :=
  match this !! identifier with
  | None =>
      input <- Input.constructor (Some event) identifier ;;
      ret (<[identifier := input]> this)
  | Some input =>
      input' <- Input.update (Some event) input ;;
      ret (<[identifier := input']> this)
  end.

(** Modelled from the spec: [reconcile(rawEvent)], for each pair the raw
    event carries, in turn. [Region.arbitrate] also passes its element. *)
Definition updateAllInputs (extract : Extractor) (event : Event.t)
    (element : Element) (this : t) : M t :=
  foldM (fun st p => updateInput event (fst p) st) (extract event) this.

Definition isTerminal (phase : option Phase) : Prop :=
  phase = Some PEnd \/ phase = Some PCancel.

Global Instance isTerminal_dec phase : Decision (isTerminal phase).
Proof. unfold isTerminal. apply _. Defined.

(** Modelled from the spec: [purgeEnded()] removes every input whose
    current phase is terminal (end or cancel). *)
Definition clearEndedInputs (this : t) : t :=
  filter (fun kv => ~ isTerminal (Input.phase (snd kv))) this.

(** Modelled from the spec: [tracksStartedInside(element)], true if any
    currently registered input satisfies [wasInitiallyInside(element)]. *)
Definition someInputWasInitiallyInside (element : Element) (this : t) : bool :=
  existsb (Input.wasInitiallyInside element) (inputs this).

(** Modelled from the spec: [tracksInPhase(phase)], the inputs currently
    at the given phase. *)
Definition getInputsInPhase (phase : Phase) (this : t) : list Input.t :=
  List.filter (fun i => bool_decide (Input.phase i = Some phase)) (inputs this).

End State.

(** ** Binding.js *)

Module Binding.

(** Modelled from the spec: [Binding.js] is not in the tree. A binding is
    an immutable triple of element, gesture and handler; [bid] is the
    identity of the binding object itself, [gesture] and [handler] are
    the identities of the objects bound. *)
Record t := mk {
  bid : positive;
  element : Element;
  gesture : positive;
  handler : positive
}.

Global Instance eq_dec : EqDecision t.
Proof. solve_decision. Defined.

(** A gesture object: for each phase, its hook, when it has one. A hook is
    given the registry and returns data or null. *)
Definition Gesture := Phase -> option (State.t -> JsValue).

(** The gesture objects the bindings refer to, by identity. *)
Definition Gestures := positive -> Gesture.

(** What a pass of the region does to the outside world. *)
Inductive Obs :=
| ObsPreventDefault
| ObsHook (b : t) (phase : Phase) (state : State.t)
| ObsHandler (handler : positive) (data : JsValue).

(** Modelled from the spec: [evaluateHook(phase, registry)] invokes the
    gesture's hook named by the phase, passing the registry. An absent
    hook is treated as returning null. A non-null value is handed to the
    handler, once; a null or absent return invokes nothing. The name is
    [None] when the event type has no phase. *)
Definition evaluateHook (gestures : Gestures) (hook : option Phase)
    (state : State.t) (this : t) : list Obs :=
  match hook with
  | None => []
  | Some phase =>
      match gestures (gesture this) phase with
      | None => []
      | Some h =>
          let data := h state in
          ObsHook this phase state ::
            (if isNullish data then []
             else [ObsHandler (handler this) data])
      end
  end.

End Binding.

Abbreviation Obs := Binding.Obs.
Abbreviation ObsPreventDefault := Binding.ObsPreventDefault.
Abbreviation ObsHook := Binding.ObsHook.
Abbreviation ObsHandler := Binding.ObsHandler.

(** ** Region.js *)

Module Region.

Record t := mk {
  bindings : list Binding.t;
  element : Element;
  capture : bool;
  preventDefault : bool;
  state : State.t
}.

Definition set_bindings (bs : list Binding.t) (this : t) : t :=
  {| bindings := bs; element := element this; capture := capture this;
     preventDefault := preventDefault this; state := state this |}.

Definition set_state (st : State.t) (this : t) : t :=
  {| bindings := bindings this; element := element this;
     capture := capture this; preventDefault := preventDefault this;
     state := st |}.

(** [new Region(element, capture = false, preventDefault = true)];
    installing the listeners is the host's side of the contract. *)
Definition constructor (element : Element) (capture preventDefault : option bool) : t :=
  {| bindings := [];
     element := element;
     capture := default false capture;
     preventDefault := default true preventDefault;
     state := ∅ |}.

Definition retrieveBindingsByElement (element : Element) (this : t)
  : list Binding.t :=
  List.filter (fun b => Pos.eqb (Binding.element b) element) (bindings this).

Definition retrieveBindingsByInitialPos (this : t) : list Binding.t :=
  List.filter
    (fun b => State.someInputWasInitiallyInside (Binding.element b) (state this))
    (bindings this).

(** The pass over one raw event. Returns the region afterwards and what
    the pass did, in order. *)
Definition arbitrate (gestures : Binding.Gestures) (extract : State.Extractor)
    (event : Event.t) (this : t) : M (t * list Obs) :=
  let prevented := if preventDefault this then [ObsPreventDefault] else [] in
  st <- State.updateAllInputs extract event (element this) (state this) ;;
  let this := set_state st this in
  let dispatched :=
    flat_map
      (fun binding =>
         Binding.evaluateHook gestures (PHASE (Event.type event))
           (state this) binding)
      (retrieveBindingsByInitialPos this) in
  ret (set_state (State.clearEndedInputs (state this)) this,
       prevented ++ dispatched).

(** [this.bindings.push(new Binding(element, gesture, handler))] *)
Definition bind (element : Element) (gesture handler : positive) (this : t) : M t :=
  b <- fresh ;;
  ret (set_bindings (bindings this ++ [Binding.mk b element gesture handler]) this).

(** [Array.prototype.indexOf] on bindings, which compares by identity;
    [None] is the -1 of an absent element. *)
Fixpoint indexOf (b : Binding.t) (l : list Binding.t) : option nat :=
  match l with
  | [] => None
  | x :: l' => if decide (x = b) then Some O else S <$> indexOf b l'
  end.

(** [l.splice(i, 1)]; with -1 for [i] the start counts from the end, and
    the last element goes. *)
Definition splice1 (i : option nat) (l : list Binding.t) : list Binding.t :=
  match i with
  | Some n => delete n l
  | None => removelast l
  end.

(** One turn of the [forEach] of [unbind]. *)
Definition unbindStep (gesture : option positive)
    (acc : t * list Binding.t) (b : Binding.t) : t * list Binding.t :=
  let (this, unbound) := acc in
  if match gesture with
     | None => true
     | Some g => Pos.eqb (Binding.gesture b) g
     end
  then (set_bindings (splice1 (indexOf b (bindings this)) (bindings this)) this,
        unbound ++ [b])
  else (this, unbound).

(** Returns the region afterwards and the bindings unbound. [gesture] is
    [None] when the argument is missing (or null). *)
Definition unbind (element : Element) (gesture : option positive) (this : t)
  : t * list Binding.t :=
  let bindings := retrieveBindingsByElement element this in
  fold_left (unbindStep gesture) bindings (this, []).

End Region.

(** ** Sample data

    The page and the events of the test suites: a [div] under the body, a
    child [div] under it, a mouse event and a two-finger touch event. *)

Module Sample.

Definition html : Element := 3%positive.
Definition body : Element := 4%positive.
Definition element : Element := 10%positive.
Definition childElement : Element := 11%positive.
Definition elsewhere : Element := 12%positive.

Definition documentNode : DomNode := Node document Null.
Definition bodyNode : DomNode := Node body (Node html documentNode).
Definition elementNode : DomNode := Node element bodyNode.
Definition childNode : DomNode := Node childElement elementNode.
Definition elsewhereNode : DomNode := Node elsewhere bodyNode.

Definition mouseevent : Event.t :=
  {| Event.type := "mousemove"; Event.target := elementNode;
     Event.clientX := 89; Event.clientY := 53;
     Event.changedTouches := None; Event.composedPath := None;
     Event.timeStamp := 7 |}.

Definition touchevent : Event.t :=
  {| Event.type := "touchstart"; Event.target := childNode;
     Event.clientX := 0; Event.clientY := 0;
     Event.changedTouches :=
       Some [ Touch.mk 17 (-2) (-12); Touch.mk 42 343 117 ];
     Event.composedPath := None;
     Event.timeStamp := 8 |}.

Definition mousedown (target : DomNode) (x y : Z) : Event.t :=
  {| Event.type := "mousedown"; Event.target := target;
     Event.clientX := x; Event.clientY := y;
     Event.changedTouches := None; Event.composedPath := None;
     Event.timeStamp := 0 |}.

Definition mousemove (target : DomNode) (x y : Z) : Event.t :=
  {| Event.type := "mousemove"; Event.target := target;
     Event.clientX := x; Event.clientY := y;
     Event.changedTouches := None; Event.composedPath := None;
     Event.timeStamp := 0 |}.

Definition mouseup (target : DomNode) (x y : Z) : Event.t :=
  {| Event.type := "mouseup"; Event.target := target;
     Event.clientX := x; Event.clientY := y;
     Event.changedTouches := None; Event.composedPath := None;
     Event.timeStamp := 0 |}.

Definition touchstart (target : DomNode) (id x y : Z) : Event.t :=
  {| Event.type := "touchstart"; Event.target := target;
     Event.clientX := 0; Event.clientY := 0;
     Event.changedTouches := Some [ Touch.mk id x y ];
     Event.composedPath := None;
     Event.timeStamp := 0 |}.

Definition touchmove (target : DomNode) (id x y : Z) : Event.t :=
  {| Event.type := "touchmove"; Event.target := target;
     Event.clientX := 0; Event.clientY := 0;
     Event.changedTouches := Some [ Touch.mk id x y ];
     Event.composedPath := None;
     Event.timeStamp := 0 |}.

Definition world0 : World :=
  {| clock := 1000; nextId := 100%positive; records := ∅ |}.

Definition world1 : World :=
  {| clock := 1016; nextId := 100%positive; records := ∅ |}.

(** Mouse events carry the one pointer 0; touch events carry their
    changed touches. *)
Definition extract : State.Extractor :=
  fun event =>
    match Event.changedTouches event with
    | Some touches => List.map (fun t => (Touch.identifier t, true)) touches
    | None => [(0, true)]
    end.

(** A gesture that answers every hook with the number of inputs alive,
    and one that implements no hook. *)
Definition counting : Binding.Gesture :=
  fun _ => Some (fun st => VNum (Z.of_nat (size st))).

Definition answering (v : JsValue) : Binding.Gesture :=
  fun _ => Some (fun _ => v).

(** The gesture 1 counts, the gestures 2 to 5 answer null, zero, the
    empty string and the empty object, any other has no hook. *)
Definition gestures : Binding.Gestures :=
  fun g =>
    match g with
    | 1%positive => counting
    | 2%positive => answering VNull
    | 3%positive => answering (VNum 0)
    | 4%positive => answering (VStr "")
    | 5%positive => answering (VObj [])
    | _ => fun _ => None
    end.

(** A region over the body, with one binding to [element] and one to
    [elsewhere], both of the counting gesture. *)
Definition onElement : Binding.t := Binding.mk 1 element 1 50.
Definition onElsewhere : Binding.t := Binding.mk 2 elsewhere 1 51.

Definition region : Region.t :=
  {| Region.bindings := [onElement; onElsewhere];
     Region.element := body;
     Region.capture := false;
     Region.preventDefault := true;
     Region.state := ∅ |}.

End Sample.

(** ** The lifetime of an input

    What happens to an input, and to the world around it, between its
    construction and its removal: it is updated, it hands out scratch
    records, and other code runs in between (other inputs are built and
    updated, gestures write to their records, the clock advances), of which
    only this matters: the allocator never hands out an identity twice. *)

Inductive UpdateStep : World * Input.t -> World * Input.t -> Prop :=
| step_update event w input input' w' :
    Input.update event input w = inr (input', w') ->
    UpdateStep (w, input) (w', input').

Inductive OtherStep : World * Input.t -> World * Input.t -> Prop :=
| step_progress id w input r input' w' :
    Input.getProgressOfGesture id input w = inr ((r, input'), w') ->
    OtherStep (w, input) (w', input')
| step_elsewhere w w' input :
    (nextId w <= nextId w')%positive ->
    OtherStep (w, input) (w', input).

Definition InputStep (x y : World * Input.t) : Prop :=
  UpdateStep x y \/ OtherStep x y.

(** Every object the input refers to has been allocated, and no two
    gesture ids share a scratch record. *)
Definition allocated (x : World * Input.t) : Prop :=
  let (w, input) := x in
  (PointerData.oid (Input.initial input) < nextId w)%positive /\
  (PointerData.oid (Input.current input) < nextId w)%positive /\
  (PointerData.oid (Input.previous input) < nextId w)%positive /\
  (forall id r, Input.progress input !! id = Some r -> (r < nextId w)%positive) /\
  (forall id1 id2 r,
      Input.progress input !! id1 = Some r ->
      Input.progress input !! id2 = Some r -> id1 = id2).

(** ** Vocabulary of the statements *)

(** The bindings [unbind(element, gesture)] is asked to remove: those of
    the element, and of the gesture by identity when one is given. *)
Definition toUnbind (element : Element) (gesture : option positive)
    (b : Binding.t) : bool :=
  Pos.eqb (Binding.element b) element &&
  match gesture with
  | None => true
  | Some g => Pos.eqb (Binding.gesture b) g
  end.

(** The handler invocations among what a pass did, in order. *)
Definition handlerCalls (tr : list Obs) : list (positive * JsValue) :=
  flat_map (fun o => match o with
                     | ObsHandler h v => [(h, v)]
                     | _ => []
                     end) tr.

(** The hook invocations among what a pass did, in order. *)
Definition hookCalls (tr : list Obs) : list (Binding.t * Phase * State.t) :=
  flat_map (fun o => match o with
                     | ObsHook b phase st => [(b, phase, st)]
                     | _ => []
                     end) tr.


(** No input of the registry started inside the element. *)
Definition noneStartedInside (element : Element) (st : State.t) : Prop :=
  forall id input,
    st !! id = Some input -> element ∉ Input.initialElements input.

(** Whatever input the event starts, given the registry it arrives at,
    starts outside the element: the propagation path of the event misses
    the element whenever the event carries an identifier that is not in the
    registry. The events of inputs that are alive are not constrained. *)
Definition startsOutside (element : Element) (extract : State.Extractor)
    (st : State.t) (ev : Event.t) : Prop :=
  forall id,
    In id (List.map fst (extract ev)) ->
    st !! id = None ->
    forall path, Input.getPropagationPath ev = inr path -> element ∉ path.

(** A run of passes over raw events, in their order of arrival, none of
    which starts an input inside the element, with what the passes did. *)
Inductive PassesOutside (gestures : Binding.Gestures)
    (extract : State.Extractor) (element : Element)
  : Region.t * World -> list Obs -> Region.t * World -> Prop :=
| passes_done x :
    PassesOutside gestures extract element x [] x
| passes_next r w ev r1 tr1 w1 tr y :
    startsOutside element extract (Region.state r) ev ->
    Region.arbitrate gestures extract ev r w = inr ((r1, tr1), w1) ->
    PassesOutside gestures extract element (r1, w1) tr y ->
    PassesOutside gestures extract element (r, w) (tr1 ++ tr) y.

(** The current data of the input was built from the event. *)
Definition builtFrom (ev : Event.t) (input : Input.t) : Prop :=
  PointerData.originalEvent (Input.current input) = ev /\
  Input.phase input = PHASE (Event.type ev).

(** Where the inputs of the registry come from, after a reconciliation:
    an input that was there is still there, and started where it started;
    an input that is there was there, or was started by this event. *)
Definition sameStart (st st1 : State.t) (id : Z) : Prop :=
  forall input,
    st !! id = Some input ->
    exists input1,
      st1 !! id = Some input1 /\
      Input.initialElements input1 = Input.initialElements input.

Definition startedBy (ev : Event.t) (ids : list Z) (st st1 : State.t) (id : Z)
  : Prop :=
  forall input1,
    st1 !! id = Some input1 ->
    (exists input,
        st !! id = Some input /\
        Input.initialElements input1 = Input.initialElements input) \/
    (st !! id = None /\ In id ids /\
     exists path,
       Input.getPropagationPath ev = inr path /\
       Input.initialElements input1 = list_to_set path).

(** The two ways of having nothing to read the position from. *)
Definition noUsableEvent (event : option Event.t) (identifier : Z) : Prop :=
  event = None \/
  exists ev touches,
    event = Some ev /\ Event.changedTouches ev = Some touches /\
    forall t, In t touches -> Touch.identifier t <> identifier.

(** ** Further vocabulary *)

(** The identities of the nodes from a node up its [parentNode] chain. *)
Fixpoint ancestors (node : DomNode) : list Element :=
  match node with
  | Null => []
  | Node self parentNode => self :: ancestors parentNode
  end.

(** [Input.update] followed through a throw. The assignment to [previous]
    comes first, so when the construction of the PointerData throws, the
    input is left with [previous] overwritten. The result is the error
    with the input as it is left, or the input and the world as
    [Input.update] returns them. *)
Definition updateInPlace (event : option Event.t) (this : Input.t) (w : World)
  : (Error * Input.t) + (Input.t * World) :=
  let this1 :=
    {| Input.initialElements := Input.initialElements this;
       Input.initial := Input.initial this;
       Input.current := Input.current this;
       Input.previous := Input.current this;
       Input.identifier := Input.identifier this;
       Input.progress := Input.progress this |} in
  match PointerData.constructor event (Input.identifier this1) w with
  | inl e => inl (e, this1)
  | inr (pd, w') =>
      inr ({| Input.initialElements := Input.initialElements this1;
              Input.initial := Input.initial this1;
              Input.current := pd;
              Input.previous := Input.previous this1;
              Input.identifier := Input.identifier this1;
              Input.progress := Input.progress this1 |}, w')
  end.

(** What can happen to a region: a binding is added, bindings are removed,
    a raw event is arbitrated. *)
Inductive RegionStep (gestures : Binding.Gestures) (extract : State.Extractor)
  : World * Region.t -> World * Region.t -> Prop :=
| rstep_bind element gesture handler w r r' w' :
    Region.bind element gesture handler r w = inr (r', w') ->
    RegionStep gestures extract (w, r) (w', r')
| rstep_unbind element gesture w r :
    RegionStep gestures extract (w, r) (w, fst (Region.unbind element gesture r))
| rstep_arbitrate ev w r r' tr w' :
    Region.arbitrate gestures extract ev r w = inr ((r', tr), w') ->
    RegionStep gestures extract (w, r) (w', r').

(** Every binding of the region has been allocated, and no two of them
    share their identity. *)
Definition bindingsDistinct (x : World * Region.t) : Prop :=
  let (w, r) := x in
  NoDup (List.map Binding.bid (Region.bindings r)) /\
  forall b, In b (Region.bindings r) -> (Binding.bid b < nextId w)%positive.

(** The gesture has a hook for the phase. *)
Definition hasHook (gestures : Binding.Gestures) (phase : Phase)
    (b : Binding.t) : bool :=
  match gestures (Binding.gesture b) phase with
  | Some _ => true
  | None => false
  end.

(** * Properties *)

(** ** The effect monad *)

Lemma bind_inr {A B} (m : M A) (k : A -> M B) w b w' :
  bind m k w = inr (b, w') ->
  exists a w1, m w = inr (a, w1) /\ k a w1 = inr (b, w').
Proof.
  unfold bind. destruct (m w) as [e | [a w1]]; [discriminate |].
  intros H. exists a, w1. split; [reflexivity | exact H].
Qed.

Lemma bind_inl {A B} (m : M A) (k : A -> M B) w e :
  m w = inl e -> bind m k w = inl e.
Proof. unfold bind. intros ->. reflexivity. Qed.

Lemma bind_step {A B} (m : M A) (k : A -> M B) w a w1 :
  m w = inr (a, w1) -> bind m k w = k a w1.
Proof. unfold bind. intros ->. reflexivity. Qed.

(** ** PointerData *)

Lemma find_touch_None touches identifier :
  List.find (fun t => Z.eqb (Touch.identifier t) identifier) touches = None <->
  forall t, In t touches -> Touch.identifier t <> identifier.
Proof.
  split.
  - intros H t Ht Heq.
    pose proof (find_none _ _ H t Ht) as Hf. simpl in Hf. lia.
  - intros H. induction touches as [| t ts IH]; [reflexivity |].
    simpl. destruct (Z.eqb_spec (Touch.identifier t) identifier) as [Heq | Hne].
    + exfalso. apply (H t); [left; reflexivity | exact Heq].
    + apply IH. intros t' Ht'. apply H. right. exact Ht'.
Qed.

Lemma getEventObject_None ev identifier :
  PointerData.getEventObject ev identifier = None <->
  exists touches,
    Event.changedTouches ev = Some touches /\
    forall t, In t touches -> Touch.identifier t <> identifier.
Proof.
  unfold PointerData.getEventObject.
  destruct (Event.changedTouches ev) as [touches |].
  - destruct (List.find _ touches) as [t |] eqn:Hf; simpl.
    + split; [discriminate |]. intros (ts & [= <-] & Hall).
      apply find_touch_None in Hall. congruence.
    + split; [| reflexivity]. intros _. exists touches. split; [reflexivity |].
      apply find_touch_None. exact Hf.
  - split; [discriminate |]. intros (ts & [=] & _).
Qed.

(** What a successful construction returns, field by field. *)
Lemma PointerData_constructor_inr event identifier w pd w' :
  PointerData.constructor event identifier w = inr (pd, w') ->
  exists ev eventObj,
    event = Some ev /\
    PointerData.getEventObject ev identifier = Some eventObj /\
    pd = {| PointerData.oid := nextId w;
            PointerData.originalEvent := ev;
            PointerData.type := PHASE (Event.type ev);
            PointerData.time := clock w;
            PointerData.point :=
              Point2D.mk (PointerData.eo_clientX eventObj)
                         (PointerData.eo_clientY eventObj) |} /\
    w' = {| clock := clock w; nextId := Pos.succ (nextId w);
            records := records w |}.
Proof.
  unfold PointerData.constructor, bind, fresh, Date_now, ret, throw. simpl.
  destruct event as [ev |]; [| discriminate].
  destruct (PointerData.getEventObject ev identifier) as [eo |] eqn:Heo;
    [| discriminate].
  intros [= <- <-]. exists ev, eo. repeat split; assumption.
Qed.

Lemma PointerData_constructor_ok ev identifier eventObj w :
  PointerData.getEventObject ev identifier = Some eventObj ->
  PointerData.constructor (Some ev) identifier w =
    inr ({| PointerData.oid := nextId w;
            PointerData.originalEvent := ev;
            PointerData.type := PHASE (Event.type ev);
            PointerData.time := clock w;
            PointerData.point :=
              Point2D.mk (PointerData.eo_clientX eventObj)
                         (PointerData.eo_clientY eventObj) |},
         {| clock := clock w; nextId := Pos.succ (nextId w);
            records := records w |}).
Proof.
  intros Heo.
  unfold PointerData.constructor, bind, fresh, Date_now, ret, throw. simpl.
  rewrite Heo. reflexivity.
Qed.

Lemma PointerData_constructor_inl event identifier w :
  (exists e, PointerData.constructor event identifier w = inl e) <->
  noUsableEvent event identifier.
Proof.
  unfold noUsableEvent. split.
  - intros [e He]. destruct event as [ev |]; [right | left; reflexivity].
    destruct (PointerData.getEventObject ev identifier) as [eo |] eqn:Heo.
    + rewrite (PointerData_constructor_ok _ _ _ _ Heo) in He. discriminate.
    + apply getEventObject_None in Heo as (ts & Hts & Hall).
      exists ev, ts. auto.
  - intros [-> | (ev & ts & -> & Hts & Hall)].
    + eexists. reflexivity.
    + assert (PointerData.getEventObject ev identifier = None) as Heo
        by (apply getEventObject_None; eauto).
      unfold PointerData.constructor, bind, fresh, Date_now, ret, throw. simpl.
      rewrite Heo. eexists. reflexivity.
Qed.

(** An error of the construction of the pointer data is the error of
    everything built on it. *)
Lemma Input_constructor_inl event identifier w e :
  PointerData.constructor event identifier w = inl e ->
  Input.constructor event identifier w = inl e.
Proof. intros H. unfold Input.constructor. apply bind_inl. exact H. Qed.

Lemma Input_update_inl event input w e :
  PointerData.constructor event (Input.identifier input) w = inl e ->
  Input.update event input w = inl e.
Proof. intros H. unfold Input.update. apply bind_inl. exact H. Qed.

Lemma updateInput_new_inl ev identifier (st : State.t) w e :
  st !! identifier = None ->
  PointerData.constructor (Some ev) identifier w = inl e ->
  State.updateInput ev identifier st w = inl e.
Proof.
  intros Hst H. unfold State.updateInput. rewrite Hst.
  apply bind_inl. apply Input_constructor_inl. exact H.
Qed.

Lemma updateInput_known_inl ev identifier (st : State.t) input w e :
  st !! identifier = Some input ->
  PointerData.constructor (Some ev) (Input.identifier input) w = inl e ->
  State.updateInput ev identifier st w = inl e.
Proof.
  intros Hst H. unfold State.updateInput. rewrite Hst.
  apply bind_inl. apply Input_update_inl. exact H.
Qed.

Lemma arbitrate_inl gestures extract event r w e :
  State.updateAllInputs extract event (Region.element r) (Region.state r) w = inl e ->
  Region.arbitrate gestures extract event r w = inl e.
Proof. intros H. unfold Region.arbitrate. apply bind_inl. exact H. Qed.

(** C5. Constructing a PointerData throws exactly when no event is
    supplied or when the event has changed touches none of which carries
    the identifier. The error is the result of the construction itself,
    and it is the result of everything that constructs: of [new Input], of
    [Input.update], and of the arbitration pass of the region, which runs
    no hook and returns no region then. *)
Theorem PointerData_constructor_error
    (gestures : Binding.Gestures) (extract : State.Extractor) (r : Region.t) :
  (forall event identifier w,
      (exists e, PointerData.constructor event identifier w = inl e) <->
      noUsableEvent event identifier) /\
  (forall event identifier w e,
      PointerData.constructor event identifier w = inl e ->
      Input.constructor event identifier w = inl e) /\
  (forall event input w e,
      PointerData.constructor event (Input.identifier input) w = inl e ->
      Input.update event input w = inl e) /\
  (forall event w e,
      State.updateAllInputs extract event (Region.element r) (Region.state r) w
        = inl e ->
      Region.arbitrate gestures extract event r w = inl e) /\
  (forall event identifier isNew rest w e,
      extract event = (identifier, isNew) :: rest ->
      Region.state r !! identifier = None ->
      PointerData.constructor (Some event) identifier w = inl e ->
      Region.arbitrate gestures extract event r w = inl e).
Proof.
  split; [apply PointerData_constructor_inl |].
  split; [apply Input_constructor_inl |].
  split; [apply Input_update_inl |].
  split; [intros; apply arbitrate_inl; assumption |].
  intros event identifier isNew rest w e Hex Hst Hpd.
  apply arbitrate_inl. unfold State.updateAllInputs. rewrite Hex. simpl.
  apply bind_inl. apply updateInput_new_inl; assumption.
Qed.

(** The touch event of the test suite carries the touches 17 and 42. Asked
    for the touch 5, the construction throws, and so does a pass of the
    region whose registry is asked to track 5. *)
Lemma PointerData_constructor_error_witness :
  (exists e, PointerData.constructor (Some Sample.touchevent) 5 Sample.world0 = inl e) /\
  (exists e,
      Region.arbitrate Sample.gestures (fun _ => [(5, true)]) Sample.touchevent
        (Region.constructor Sample.body None None) Sample.world0 = inl e).
Proof.
  pose proof (PointerData_constructor_error Sample.gestures
                (fun _ => [(5, true)])
                (Region.constructor Sample.body None None))
    as (Hiff & _ & _ & _ & Hpass).
  assert (exists e,
             PointerData.constructor (Some Sample.touchevent) 5 Sample.world0
             = inl e) as [e He].
  { apply Hiff. right. eexists _, _.
    split; [reflexivity |]. split; [reflexivity |].
    simpl. intros t [<- | [<- | []]]; simpl; lia. }
  split; [exists e; exact He |].
  exists e. eapply Hpass; [reflexivity | reflexivity | exact He].
Defined.

(** C7. With changed touches, the position is that of the first touch
    whose identifier is the given one; without, it is the position of the
    event itself, whatever the identifier. In both cases the construction
    succeeds. *)
Theorem PointerData_position (ev : Event.t) (identifier : Z) (w : World) :
  match Event.changedTouches ev with
  | Some touches =>
      forall t,
        List.find (fun t => Z.eqb (Touch.identifier t) identifier) touches = Some t ->
        In t touches /\ Touch.identifier t = identifier /\
        exists pd w',
          PointerData.constructor (Some ev) identifier w = inr (pd, w') /\
          PointerData.point pd = Point2D.mk (Touch.clientX t) (Touch.clientY t)
  | None =>
      (exists pd w',
          PointerData.constructor (Some ev) identifier w = inr (pd, w') /\
          PointerData.point pd = Point2D.mk (Event.clientX ev) (Event.clientY ev)) /\
      (forall identifier' pd pd' w1 w1',
          PointerData.constructor (Some ev) identifier w = inr (pd, w1) ->
          PointerData.constructor (Some ev) identifier' w = inr (pd', w1') ->
          PointerData.point pd' = PointerData.point pd)
  end.
Proof.
  destruct (Event.changedTouches ev) as [touches |] eqn:Hct.
  - intros t Hfind.
    pose proof (find_some _ _ Hfind) as [Hin Heq]. simpl in Heq.
    split; [exact Hin |]. split; [lia |].
    assert (PointerData.getEventObject ev identifier
            = Some (PointerData.OfTouch t)) as Heo.
    { unfold PointerData.getEventObject. rewrite Hct, Hfind. reflexivity. }
    eexists _, _. split; [apply PointerData_constructor_ok; exact Heo |].
    reflexivity.
  - assert (forall i, PointerData.getEventObject ev i
                      = Some (PointerData.OfEvent ev)) as Heo.
    { intros i. unfold PointerData.getEventObject. rewrite Hct. reflexivity. }
    split.
    + eexists _, _.
      split; [apply PointerData_constructor_ok; apply Heo |]. reflexivity.
    + intros i' pd pd' w1 w1' H H'.
      rewrite (PointerData_constructor_ok _ _ _ _ (Heo identifier)) in H.
      rewrite (PointerData_constructor_ok _ _ _ _ (Heo i')) in H'.
      injection H as <- _. injection H' as <- _. reflexivity.
Qed.

(** The positions the test suite expects. *)
Lemma PointerData_position_witness :
  (exists pd w',
      PointerData.constructor (Some Sample.mouseevent) 42 Sample.world0 = inr (pd, w') /\
      PointerData.point pd = Point2D.mk 89 53) /\
  (exists pd w',
      PointerData.constructor (Some Sample.touchevent) 42 Sample.world0 = inr (pd, w') /\
      PointerData.point pd = Point2D.mk 343 117).
Proof.
  split.
  - exact (proj1 (PointerData_position Sample.mouseevent 42 Sample.world0)).
  - exact (proj2 (proj2 (PointerData_position Sample.touchevent 42 Sample.world0
                           (Touch.mk 42 343 117) eq_refl))).
Defined.

(** C10. The time of a PointerData is the reading of the clock at its
    construction. The time stamp the event carries plays no part. Built
    from the same event at two instants at which the clock reads
    differently, two PointerData differ in their time and agree on the
    event, the phase and the position. *)
Theorem PointerData_time (event : option Event.t) (identifier : Z)
    (w : World) (pd : PointerData.t) (w' : World) :
  PointerData.constructor event identifier w = inr (pd, w') ->
  PointerData.time pd = clock w /\
  (forall ev stamp,
      event = Some ev ->
      exists pd2 w2,
        PointerData.constructor
          (Some {| Event.type := Event.type ev; Event.target := Event.target ev;
                   Event.clientX := Event.clientX ev;
                   Event.clientY := Event.clientY ev;
                   Event.changedTouches := Event.changedTouches ev;
                   Event.composedPath := Event.composedPath ev;
                   Event.timeStamp := stamp |}) identifier w = inr (pd2, w2) /\
        PointerData.time pd2 = PointerData.time pd) /\
  (forall v pd2 v',
      PointerData.constructor event identifier v = inr (pd2, v') ->
      clock v <> clock w ->
      PointerData.time pd2 <> PointerData.time pd /\
      PointerData.originalEvent pd2 = PointerData.originalEvent pd /\
      PointerData.type pd2 = PointerData.type pd /\
      PointerData.point pd2 = PointerData.point pd).
Proof.
  intros H.
  apply PointerData_constructor_inr in H as (ev & eo & -> & Heo & -> & ->).
  simpl. split; [reflexivity |]. split.
  - intros ev' stamp [= <-].
    set (ev2 := Event.mk _ _ _ _ _ _ stamp).
    assert (exists eo2, PointerData.getEventObject ev2 identifier = Some eo2)
      as [eo2 Heo2].
    { unfold PointerData.getEventObject in *. subst ev2. simpl.
      destruct (Event.changedTouches ev); [| eauto].
      destruct (List.find _ _); [eauto | discriminate]. }
    eexists _, _.
    split; [apply PointerData_constructor_ok; exact Heo2 |]. reflexivity.
  - intros v pd2 v' H2 Hclock.
    apply PointerData_constructor_inr in H2 as (ev' & eo' & [= <-] & Heo' & -> & ->).
    simpl. rewrite Heo in Heo'. injection Heo' as <-. auto.
Qed.

Lemma PointerData_time_witness :
  exists pd pd2,
    PointerData.time pd = 1000 /\ PointerData.time pd2 = 1016 /\
    PointerData.point pd2 = PointerData.point pd.
Proof.
  destruct (PointerData.constructor (Some Sample.mouseevent) 42 Sample.world0)
    as [e | [pd w']] eqn:H; [discriminate |].
  destruct (PointerData.constructor (Some Sample.mouseevent) 42 Sample.world1)
    as [e | [pd2 v']] eqn:H2; [discriminate |].
  exists pd, pd2.
  pose proof (PointerData_time _ _ _ _ _ H) as (Ht & _ & Hdiff).
  destruct (Hdiff _ _ _ H2) as (_ & _ & _ & Hpt); [simpl; lia |].
  pose proof (PointerData_time _ _ _ _ _ H2) as (Ht2 & _ & _).
  split; [exact Ht |]. split; [exact Ht2 |]. exact Hpt.
Defined.

(** ** Input: slots and scratch records *)

Lemma Input_update_inr event input w input' w' :
  Input.update event input w = inr (input', w') ->
  exists pd,
    PointerData.constructor event (Input.identifier input) w = inr (pd, w') /\
    input' = {| Input.initialElements := Input.initialElements input;
                Input.initial := Input.initial input;
                Input.current := pd;
                Input.previous := Input.current input;
                Input.identifier := Input.identifier input;
                Input.progress := Input.progress input |}.
Proof.
  unfold Input.update. intros H.
  apply bind_inr in H as (pd & w1 & Hpd & Hret).
  unfold ret in Hret. injection Hret as <- <-. exists pd. auto.
Qed.

Lemma Input_update_ok event input w pd w' :
  PointerData.constructor event (Input.identifier input) w = inr (pd, w') ->
  Input.update event input w =
    inr ({| Input.initialElements := Input.initialElements input;
            Input.initial := Input.initial input;
            Input.current := pd;
            Input.previous := Input.current input;
            Input.identifier := Input.identifier input;
            Input.progress := Input.progress input |}, w').
Proof.
  intros H. unfold Input.update. rewrite (bind_step _ _ _ _ _ H). reflexivity.
Qed.

Lemma Input_constructor_inr event identifier w input w' :
  Input.constructor event identifier w = inr (input, w') ->
  exists pd path,
    PointerData.constructor event identifier w = inr (pd, w') /\
    Input.getPropagationPath (PointerData.originalEvent pd) = inr path /\
    input = {| Input.initialElements := list_to_set path;
               Input.initial := pd;
               Input.current := pd;
               Input.previous := pd;
               Input.identifier := identifier;
               Input.progress := ∅ |}.
Proof.
  unfold Input.constructor. intros H.
  apply bind_inr in H as (pd & w1 & Hpd & H).
  destruct event as [ev |]; [| discriminate].
  apply bind_inr in H as (els & w2 & Hels & Hret).
  unfold ret in Hret. injection Hret as <- <-.
  unfold Input.getElementsInPath in Hels.
  destruct (Input.getPropagationPath ev) as [e | path] eqn:Hpath;
    [discriminate |].
  injection Hels as <- <-. exists pd, path.
  split; [exact Hpd |]. split; [| reflexivity].
  apply PointerData_constructor_inr in Hpd as (ev' & eo & [= <-] & _ & -> & _).
  exact Hpath.
Qed.

Lemma getProgressOfGesture_known id input w r :
  Input.progress input !! id = Some r ->
  Input.getProgressOfGesture id input w = inr ((RecordAt r, input), w).
Proof. intros H. unfold Input.getProgressOfGesture. rewrite H. reflexivity. Qed.

Lemma getProgressOfGesture_inherited id input w :
  Input.progress input !! id = None ->
  inherited id = true ->
  Input.getProgressOfGesture id input w = inr ((Builtin id, input), w).
Proof.
  intros H Hinh. unfold Input.getProgressOfGesture. rewrite H, Hinh. reflexivity.
Qed.

Lemma getProgressOfGesture_new id input w :
  Input.progress input !! id = None ->
  inherited id = false ->
  Input.getProgressOfGesture id input w =
    inr ((RecordAt (nextId w),
          {| Input.initialElements := Input.initialElements input;
             Input.initial := Input.initial input;
             Input.current := Input.current input;
             Input.previous := Input.previous input;
             Input.identifier := Input.identifier input;
             Input.progress := <[id := nextId w]> (Input.progress input) |}),
         {| clock := clock w; nextId := Pos.succ (nextId w);
            records := <[nextId w := ∅]> (records w) |}).
Proof.
  intros H Hinh. unfold Input.getProgressOfGesture. rewrite H, Hinh. reflexivity.
Qed.

(** An access leaves the input and the world alone, or creates a record
    for an id that had none and is no inherited name. *)
Lemma getProgressOfGesture_inr id input w r input' w' :
  Input.getProgressOfGesture id input w = inr ((r, input'), w') ->
  (input' = input /\ w' = w) \/
  (Input.progress input !! id = None /\
   r = RecordAt (nextId w) /\
   input' = {| Input.initialElements := Input.initialElements input;
               Input.initial := Input.initial input;
               Input.current := Input.current input;
               Input.previous := Input.previous input;
               Input.identifier := Input.identifier input;
               Input.progress := <[id := nextId w]> (Input.progress input) |} /\
   w' = {| clock := clock w; nextId := Pos.succ (nextId w);
           records := <[nextId w := ∅]> (records w) |}).
Proof.
  destruct (Input.progress input !! id) as [r0 |] eqn:Hid.
  - rewrite (getProgressOfGesture_known _ _ _ _ Hid). intros [= <- <- <-]. auto.
  - destruct (inherited id) eqn:Hinh.
    + rewrite (getProgressOfGesture_inherited _ _ _ Hid Hinh).
      intros [= <- <- <-]. auto.
    + rewrite (getProgressOfGesture_new _ _ _ Hid Hinh).
      intros [= <- <- <-]. right. auto.
Qed.

Lemma steps_preserve (P : World * Input.t -> Prop) :
  (forall x y, P x -> InputStep x y -> P y) ->
  forall x y, rtc InputStep x y -> P x -> P y.
Proof.
  intros Hstep x y Hrtc. induction Hrtc as [| x y z Hxy _ IH]; [auto |].
  intros Hx. apply IH. eapply Hstep; eassumption.
Qed.

Lemma constructor_allocated event identifier w input w' :
  Input.constructor event identifier w = inr (input, w') ->
  allocated (w', input).
Proof.
  intros H. apply Input_constructor_inr in H as (pd & path & Hpd & _ & ->).
  apply PointerData_constructor_inr in Hpd as (ev & eo & _ & _ & -> & ->).
  simpl. repeat split; try lia.
  - intros id r Hr. rewrite lookup_empty in Hr. discriminate.
  - intros id1 id2 r Hr. rewrite lookup_empty in Hr. discriminate.
Qed.

Lemma step_allocated x y : allocated x -> InputStep x y -> allocated y.
Proof.
  intros Hx [Hup | Hother].
  - destruct Hup as [event w input input' w' Hup].
    destruct Hx as (Hi & Hc & Hp & Hlt & Hinj).
    apply Input_update_inr in Hup as (pd & Hpd & ->).
    apply PointerData_constructor_inr in Hpd as (ev & eo & _ & _ & -> & ->).
    simpl. repeat split; try lia; [| exact Hinj].
    intros id r Hr. specialize (Hlt id r Hr). lia.
  - destruct Hother as [id w input r input' w' Hget | w w' input Hle].
    + destruct Hx as (Hi & Hc & Hp & Hlt & Hinj).
      apply getProgressOfGesture_inr in Hget as [[-> ->] | (Hid & _ & -> & ->)].
      * repeat split; assumption.
      * simpl. repeat split; try lia.
        -- intros id' r' Hr'. apply lookup_insert_Some in Hr' as [[_ <-] | [_ Hr']].
           ++ lia.
           ++ specialize (Hlt id' r' Hr'). lia.
        -- intros id1 id2 r' H1 H2.
           apply lookup_insert_Some in H1 as [[<- <-] | [Hne1 H1]];
             apply lookup_insert_Some in H2 as [[<- E2] | [Hne2 H2]];
             try reflexivity.
           ++ specialize (Hlt id2 _ H2). lia.
           ++ specialize (Hlt id1 _ H1). lia.
           ++ eapply Hinj; eassumption.
    + destruct Hx as (Hi & Hc & Hp & Hlt & Hinj).
      repeat split; try lia; [| exact Hinj].
      intros id r Hr. specialize (Hlt id r Hr). lia.
Qed.

Lemma step_initial x y :
  InputStep x y -> Input.initial (snd y) = Input.initial (snd x).
Proof.
  intros [Hup | Hother].
  - destruct Hup as [event w input input' w' Hup].
    apply Input_update_inr in Hup as (pd & _ & ->). reflexivity.
  - destruct Hother as [id w input r input' w' Hget | w w' input Hle];
      [| reflexivity].
    apply getProgressOfGesture_inr in Hget as [[-> ->] | (Hid & _ & -> & ->)].
    + reflexivity.
    + reflexivity.
Qed.

Lemma other_step_current x y :
  OtherStep x y -> Input.current (snd y) = Input.current (snd x).
Proof.
  intros [id w input r input' w' Hget | w w' input Hle]; [| reflexivity].
  apply getProgressOfGesture_inr in Hget as [[-> ->] | (Hid & _ & -> & ->)].
  - reflexivity.
  - reflexivity.
Qed.

Lemma steps_initial x y :
  rtc InputStep x y -> Input.initial (snd y) = Input.initial (snd x).
Proof.
  intros H. induction H as [| x y z Hxy _ IH]; [reflexivity |].
  rewrite IH. apply step_initial. exact Hxy.
Qed.

Lemma other_steps_current x y :
  rtc OtherStep x y -> Input.current (snd y) = Input.current (snd x).
Proof.
  intros H. induction H as [| x y z Hxy _ IH]; [reflexivity |].
  rewrite IH. apply other_step_current. exact Hxy.
Qed.

(** C3. Take an input at any point of its lifetime. [update] puts the
    object that was [current] into [previous] and the PointerData it builds
    from the event into [current]; [initial] is still the object the
    constructor installed, and it is not the new [current]. When the
    update is the first one, [previous] is that same initial object. *)
Theorem Input_update_slots
    (event0 : option Event.t) (identifier : Z) (w0 : World)
    (input0 : Input.t) (w1 : World) :
  Input.constructor event0 identifier w0 = inr (input0, w1) ->
  forall w input event input' w',
    rtc InputStep (w1, input0) (w, input) ->
    Input.update event input w = inr (input', w') ->
    Input.previous input' = Input.current input /\
    PointerData.constructor event (Input.identifier input) w
      = inr (Input.current input', w') /\
    Input.initial input' = Input.initial input0 /\
    PointerData.oid (Input.initial input')
      <> PointerData.oid (Input.current input') /\
    (rtc OtherStep (w1, input0) (w, input) ->
     Input.previous input' = Input.initial input').
Proof.
  intros Hnew w input event input' w' Hlife Hup.
  pose proof (steps_preserve allocated step_allocated _ _ Hlife
                (constructor_allocated _ _ _ _ _ Hnew)) as (Hi & _).
  pose proof (steps_initial _ _ Hlife) as Hinit. simpl in Hinit.
  apply Input_update_inr in Hup as (pd & Hpd & ->). simpl.
  split; [reflexivity |]. split; [exact Hpd |]. split; [exact Hinit |].
  split.
  - apply PointerData_constructor_inr in Hpd as (ev & eo & _ & _ & -> & _).
    simpl. lia.
  - intros Hfirst. pose proof (other_steps_current _ _ Hfirst) as Hcur.
    simpl in Hcur. rewrite Hcur, Hinit.
    apply Input_constructor_inr in Hnew as (pd0 & path & _ & _ & ->).
    reflexivity.
Qed.

(** The scenario of the specification: a start at (10,10), then a move to
    (15,12). *)
Lemma Input_update_slots_witness :
  exists input0 w1 input' w',
    Input.constructor (Some (Sample.mousedown Sample.elementNode 10 10)) 7
      Sample.world0 = inr (input0, w1) /\
    Input.update (Some (Sample.mousemove Sample.elementNode 15 12)) input0 w1
      = inr (input', w') /\
    PointerData.point (Input.current input') = Point2D.mk 15 12 /\
    PointerData.point (Input.previous input') = Point2D.mk 10 10 /\
    Input.initial input' = Input.initial input0 /\
    PointerData.oid (Input.initial input')
      <> PointerData.oid (Input.current input') /\
    Input.previous input' = Input.initial input'.
Proof.
  destruct (Input.constructor (Some (Sample.mousedown Sample.elementNode 10 10))
              7 Sample.world0) as [e | [input0 w1]] eqn:Hnew;
    [discriminate |].
  destruct (Input.update (Some (Sample.mousemove Sample.elementNode 15 12))
              input0 w1) as [e | [input' w']] eqn:Hup.
  { injection Hnew as <- <-. discriminate. }
  exists input0, w1, input', w'.
  pose proof (Input_update_slots _ _ _ _ _ Hnew _ _ _ _ _ (rtc_refl _ _) Hup)
    as (Hprev & Hcur & Hinit & Hne & Hfirst).
  split; [reflexivity |]. split; [exact Hup |].
  split; [| split; [| split; [exact Hinit | split; [exact Hne |]]]].
  - injection Hnew as <- <-. injection Hup as <- <-. reflexivity.
  - injection Hnew as <- <-. injection Hup as <- <-. reflexivity.
  - apply Hfirst. apply rtc_refl.
Defined.

Lemma step_progress_mono x y id r :
  InputStep x y ->
  Input.progress (snd x) !! id = Some r ->
  Input.progress (snd y) !! id = Some r.
Proof.
  intros [Hup | Hother] Hr.
  - destruct Hup as [event w input input' w' Hup].
    apply Input_update_inr in Hup as (pd & _ & ->). exact Hr.
  - destruct Hother as [id' w input r' input' w' Hget | w w' input Hle];
      [| exact Hr].
    simpl in *. apply getProgressOfGesture_inr in Hget as [[-> ->] | (Hid & _ & -> & ->)].
    + exact Hr.
    + simpl.
      rewrite lookup_insert_ne; [exact Hr |]. intros <-. congruence.
Qed.

Lemma setField_other r field v w w' r' :
  setField r field v w = inr (tt, w') ->
  r' <> r ->
  records w' !! r' = records w !! r'.
Proof.
  unfold setField. destruct (records w !! r) as [rec |]; [| discriminate].
  intros [= <-] Hne. simpl. apply lookup_insert_ne. congruence.
Qed.

(** Once a gesture id has its record, it keeps it, and what any other id
    gets is another object. *)
Lemma progress_stable w input id r :
  allocated (w, input) ->
  Input.progress input !! id = Some r ->
  forall w3 input3,
    rtc InputStep (w, input) (w3, input3) ->
    Input.getProgressOfGesture id input3 w3 = inr ((RecordAt r, input3), w3) /\
    forall id' o' input4 w4,
      id' <> id ->
      Input.getProgressOfGesture id' input3 w3 = inr ((o', input4), w4) ->
      o' <> RecordAt r /\
      forall r' field v w5,
        o' = RecordAt r' ->
        setField r' field v w4 = inr (tt, w5) ->
        records w5 !! r = records w4 !! r.
Proof.
  intros Halloc Hr w3 input3 Hlife.
  pose proof (steps_preserve allocated step_allocated _ _ Hlife Halloc)
    as (_ & _ & _ & Hlt & Hinj).
  assert (Input.progress input3 !! id = Some r) as Hr3.
  { apply (steps_preserve
             (fun x => Input.progress (snd x) !! id = Some r)
             (fun x y Hx Hxy => step_progress_mono x y id r Hxy Hx)
             _ _ Hlife Hr). }
  split; [apply getProgressOfGesture_known; exact Hr3 |].
  intros id' o' input4 w4 Hne Hget.
  assert (o' <> RecordAt r) as Hrr.
  { destruct (Input.progress input3 !! id') as [r0 |] eqn:Hid'.
    - rewrite (getProgressOfGesture_known _ _ _ _ Hid') in Hget.
      injection Hget as <- <- <-. intros [= ->]. apply Hne.
      eapply Hinj; eassumption.
    - destruct (inherited id') eqn:Hinh.
      + rewrite (getProgressOfGesture_inherited _ _ _ Hid' Hinh) in Hget.
        injection Hget as <- <- <-. discriminate.
      + rewrite (getProgressOfGesture_new _ _ _ Hid' Hinh) in Hget.
        injection Hget as <- <- <-. specialize (Hlt id r Hr3).
        intros [= Heq]. lia. }
  split; [exact Hrr |].
  intros r' field v w5 -> Hset.
  eapply setField_other; [exact Hset | congruence].
Qed.

(** X13. Take an input at any point of its lifetime and a gesture id that
    is not the name of a property every object inherits.
    [getProgressOfGesture] returns a record; when the id is asked for the
    first time, the record is a new, empty one. From then on, for the rest
    of the lifetime, the same id gets the same record and leaves the input
    and the store as they are; any other id gets another object, and a
    write to another record leaves this one as it was. *)
Theorem getProgressOfGesture_stable
    (event0 : option Event.t) (identifier : Z) (w0 : World)
    (input0 : Input.t) (w1 : World) :
  Input.constructor event0 identifier w0 = inr (input0, w1) ->
  forall w input id,
    rtc InputStep (w1, input0) (w, input) ->
    inherited id = false ->
    exists r input1 w2,
      Input.getProgressOfGesture id input w = inr ((RecordAt r, input1), w2) /\
      (Input.progress input !! id = None ->
       r = nextId w /\ records w2 !! r = Some ∅) /\
      forall w3 input3,
        rtc InputStep (w2, input1) (w3, input3) ->
        Input.getProgressOfGesture id input3 w3
          = inr ((RecordAt r, input3), w3) /\
        forall id' o' input4 w4,
          id' <> id ->
          Input.getProgressOfGesture id' input3 w3 = inr ((o', input4), w4) ->
          o' <> RecordAt r /\
          forall r' field v w5,
            o' = RecordAt r' ->
            setField r' field v w4 = inr (tt, w5) ->
            records w5 !! r = records w4 !! r.
Proof.
  intros Hnew w input id Hlife Hown.
  pose proof (steps_preserve allocated step_allocated _ _ Hlife
                (constructor_allocated _ _ _ _ _ Hnew)) as Halloc.
  destruct (Input.progress input !! id) as [r |] eqn:Hid.
  - exists r, input, w.
    split; [apply getProgressOfGesture_known; exact Hid |].
    split; [discriminate |].
    apply progress_stable; assumption.
  - pose proof (getProgressOfGesture_new _ _ w Hid Hown) as Hget.
    eexists _, _, _. split; [exact Hget |].
    split.
    + intros _. split; [reflexivity |]. simpl. apply lookup_insert_eq.
    + apply progress_stable.
      * eapply step_allocated; [exact Halloc |].
        right. eapply step_progress. exact Hget.
      * simpl. apply lookup_insert_eq.
Qed.

(** The test of the suite: no progress at first, then what was stored; and
    the record of another gesture is another object. *)
Lemma getProgressOfGesture_stable_witness :
  exists input0 w1 r input1 w2,
    Input.constructor (Some (Sample.mousedown Sample.elementNode 42 43)) 1234
      Sample.world0 = inr (input0, w1) /\
    Input.getProgressOfGesture "tap" input0 w1 = inr ((RecordAt r, input1), w2) /\
    records w2 !! r = Some ∅ /\
    Input.getProgressOfGesture "tap" input1 w2 = inr ((RecordAt r, input1), w2) /\
    forall o' input4 w4,
      Input.getProgressOfGesture "pan" input1 w2 = inr ((o', input4), w4) ->
      o' <> RecordAt r.
Proof.
  destruct (Input.constructor (Some (Sample.mousedown Sample.elementNode 42 43))
              1234 Sample.world0) as [e | [input0 w1]] eqn:Hnew;
    [discriminate |].
  destruct (getProgressOfGesture_stable _ _ _ _ _ Hnew w1 input0 "tap"
              (rtc_refl _ _) eq_refl)
    as (r & input1 & w2 & Hget & Hfirst & Hlater).
  exists input0, w1, r, input1, w2.
  split; [reflexivity |]. split; [exact Hget |].
  split.
  { apply Hfirst. injection Hnew as <- <-. reflexivity. }
  destruct (Hlater w2 input1 (rtc_refl _ _)) as [Hagain Hother].
  split; [exact Hagain |].
  intros o' input4 w4 Hpan.
  apply (Hother "pan" o' input4 w4); [discriminate | exact Hpan].
Defined.

(** C8. The id "constructor" is the name of a property that [progress],
    a plain object, inherits. Asked for it, a new input creates no record:
    the store and the progress table are as before, and what comes back is
    the built-in object of that name, not a record, the same object for
    another input, and again on a second access. *)
Theorem getProgressOfGesture_inherited_key :
  exists a w1 b w2,
    Input.constructor (Some (Sample.mousedown Sample.elementNode 42 43)) 1234
      Sample.world0 = inr (a, w1) /\
    Input.constructor (Some (Sample.mousedown Sample.elsewhereNode 1 2)) 4321
      w1 = inr (b, w2) /\
    Input.progress a = ∅ /\
    Input.getProgressOfGesture "constructor" a w2
      = inr ((Builtin "constructor", a), w2) /\
    Input.getProgressOfGesture "constructor" b w2
      = inr ((Builtin "constructor", b), w2) /\
    (forall r, Builtin "constructor" <> RecordAt r) /\
    records w2 = ∅.
Proof.
  destruct (Input.constructor (Some (Sample.mousedown Sample.elementNode 42 43))
              1234 Sample.world0) as [e | [a w1]] eqn:Ha; [discriminate |].
  destruct (Input.constructor (Some (Sample.mousedown Sample.elsewhereNode 1 2))
              4321 w1) as [e | [b w2]] eqn:Hb.
  { injection Ha as <- <-. discriminate. }
  exists a, w1, b, w2. injection Ha as <- <-. injection Hb as <- <-.
  repeat split. discriminate.
Qed.

(** ** Binding: the dispatch rule *)

(** C4. With no hook for the phase, or a hook that returns null (or
    undefined), [evaluateHook] invokes no handler. With a hook that returns
    anything else, zero, the empty string, false and the empty object
    included, it invokes the handler of the binding once, with that value.
    Besides the call of the hook there is nothing else. *)
Theorem evaluateHook_handler
    (gestures : Binding.Gestures) (phase : Phase) (state : State.t)
    (this : Binding.t) :
  match gestures (Binding.gesture this) phase with
  | None => Binding.evaluateHook gestures (Some phase) state this = []
  | Some hook =>
      hookCalls (Binding.evaluateHook gestures (Some phase) state this)
        = [(this, phase, state)] /\
      match hook state with
      | VNull | VUndefined =>
          Binding.evaluateHook gestures (Some phase) state this
            = [ObsHook this phase state] /\
          handlerCalls (Binding.evaluateHook gestures (Some phase) state this)
            = []
      | data =>
          Binding.evaluateHook gestures (Some phase) state this
            = [ObsHook this phase state; ObsHandler (Binding.handler this) data] /\
          handlerCalls (Binding.evaluateHook gestures (Some phase) state this)
            = [(Binding.handler this, data)]
      end
  end.
Proof.
  unfold Binding.evaluateHook.
  destruct (gestures (Binding.gesture this) phase) as [hook |]; [| reflexivity].
  destruct (hook state); simpl; auto.
Qed.

(** A hook that answers zero: the handler 50 is invoked once, with zero. A
    hook that answers null, and a gesture without hooks: no handler. *)
Lemma evaluateHook_handler_witness :
  handlerCalls (Binding.evaluateHook Sample.gestures (Some PMove) ∅
                  (Binding.mk 1 Sample.element 3 50))
    = [(50%positive, VNum 0)] /\
  handlerCalls (Binding.evaluateHook Sample.gestures (Some PMove) ∅
                  (Binding.mk 1 Sample.element 4 50))
    = [(50%positive, VStr "")] /\
  handlerCalls (Binding.evaluateHook Sample.gestures (Some PMove) ∅
                  (Binding.mk 1 Sample.element 5 50))
    = [(50%positive, VObj [])] /\
  handlerCalls (Binding.evaluateHook Sample.gestures (Some PMove) ∅
                  (Binding.mk 1 Sample.element 2 50)) = [] /\
  Binding.evaluateHook Sample.gestures (Some PMove) ∅
    (Binding.mk 1 Sample.element 9 50) = [].
Proof.
  split; [exact (proj2 (proj2 (evaluateHook_handler Sample.gestures PMove ∅
                                 (Binding.mk 1 Sample.element 3 50)))) |].
  split; [exact (proj2 (proj2 (evaluateHook_handler Sample.gestures PMove ∅
                                 (Binding.mk 1 Sample.element 4 50)))) |].
  split; [exact (proj2 (proj2 (evaluateHook_handler Sample.gestures PMove ∅
                                 (Binding.mk 1 Sample.element 5 50)))) |].
  split; [exact (proj2 (proj2 (evaluateHook_handler Sample.gestures PMove ∅
                                 (Binding.mk 1 Sample.element 2 50)))) |].
  exact (evaluateHook_handler Sample.gestures PMove ∅
           (Binding.mk 1 Sample.element 9 50)).
Defined.

(** ** Region: unbinding *)

Lemma set_bindings_id this : Region.set_bindings (Region.bindings this) this = this.
Proof. destruct this. reflexivity. Qed.

Lemma set_bindings_twice bs bs' this :
  Region.set_bindings bs (Region.set_bindings bs' this) = Region.set_bindings bs this.
Proof. reflexivity. Qed.

Lemma indexOf_app_here pre b rest :
  ~ In b pre -> Region.indexOf b (pre ++ b :: rest) = Some (length pre).
Proof.
  induction pre as [| x pre IH]; simpl; intros Hnin.
  - destruct (decide (b = b)); [reflexivity | contradiction].
  - destruct (decide (x = b)) as [-> | _]; [exfalso; auto |].
    rewrite IH; [reflexivity | auto].
Qed.

Lemma delete_middle {A} (pre : list A) b rest :
  delete (length pre) (pre ++ b :: rest) = pre ++ rest.
Proof. induction pre as [| x pre IH]; simpl; [reflexivity | f_equal; exact IH]. Qed.

Lemma unbindStep_hit gesture this unbound b :
  match gesture with
  | None => true
  | Some g => Pos.eqb (Binding.gesture b) g
  end = true ->
  Region.unbindStep gesture (this, unbound) b =
    (Region.set_bindings
       (Region.splice1 (Region.indexOf b (Region.bindings this))
                       (Region.bindings this)) this,
     unbound ++ [b]).
Proof. intros H. unfold Region.unbindStep. rewrite H. reflexivity. Qed.

Lemma unbindStep_miss gesture this unbound b :
  match gesture with
  | None => true
  | Some g => Pos.eqb (Binding.gesture b) g
  end = false ->
  Region.unbindStep gesture (this, unbound) b = (this, unbound).
Proof. intros H. unfold Region.unbindStep. rewrite H. reflexivity. Qed.

(** The loop of [unbind], part of the way through: [pre] has been walked
    and holds nothing to unbind, [rest] is still to be walked. *)
Lemma unbind_loop element gesture rest :
  forall pre this unbound,
    Region.bindings this = pre ++ rest ->
    (forall b, In b pre -> toUnbind element gesture b = false) ->
    fold_left (Region.unbindStep gesture)
      (List.filter (fun b => Pos.eqb (Binding.element b) element) rest)
      (this, unbound)
    = (Region.set_bindings
         (pre ++ List.filter (fun b => negb (toUnbind element gesture b)) rest) this,
       unbound ++ List.filter (toUnbind element gesture) rest).
Proof.
  induction rest as [| b rest IH]; intros pre this unbound Hbs Hpre.
  - simpl. rewrite !app_nil_r. rewrite <- (app_nil_r pre), <- Hbs.
    rewrite set_bindings_id. reflexivity.
  - assert (forall x : list Binding.t, pre ++ b :: x = (pre ++ [b]) ++ x)
      as Hassoc by (intros; rewrite <- app_assoc; reflexivity).
    assert (toUnbind element gesture b = false ->
            forall b', In b' (pre ++ [b]) -> toUnbind element gesture b' = false)
      as Hpre'.
    { intros Hb b' [Hin | [<- | []]]%in_app_or; auto. }
    cbn [List.filter].
    destruct (toUnbind element gesture b) eqn:Hb; cbn [negb].
    + pose proof Hb as Hb'. unfold toUnbind in Hb'.
      apply andb_prop in Hb' as [Hel Hg]. rewrite Hel. cbn [fold_left].
      rewrite (unbindStep_hit _ _ _ _ Hg).
      assert (~ In b pre) as Hnin.
      { intros Hin. specialize (Hpre b Hin). congruence. }
      rewrite Hbs, (indexOf_app_here _ _ _ Hnin). cbn [Region.splice1].
      rewrite delete_middle.
      rewrite (IH pre); [| reflexivity | exact Hpre].
      rewrite set_bindings_twice, <- app_assoc. reflexivity.
    + destruct (Pos.eqb (Binding.element b) element) eqn:Hel.
      * assert (match gesture with
                | None => true
                | Some g => Pos.eqb (Binding.gesture b) g
                end = false) as Hg.
        { unfold toUnbind in Hb. rewrite Hel in Hb. exact Hb. }
        cbn [fold_left]. rewrite (unbindStep_miss _ _ _ _ Hg).
        rewrite (IH (pre ++ [b])); [| rewrite Hbs; apply Hassoc | auto].
        rewrite <- app_assoc. reflexivity.
      * rewrite (IH (pre ++ [b])); [| rewrite Hbs; apply Hassoc | auto].
        rewrite <- app_assoc. reflexivity.
Qed.

Lemma filter_split_length {A} (f : A -> bool) (l : list A) :
  (length (List.filter (fun a => negb (f a)) l) + length (List.filter f l)
   = length l)%nat.
Proof.
  induction l as [| a l IH]; [reflexivity |].
  cbn [List.filter]. destruct (f a); cbn [negb length]; lia.
Qed.

(** C6. [unbind(element)] returns the bindings of the element, each once
    and in their order, and leaves in the region the others, in their
    order; [unbind(element, gesture)] does so for the bindings of both the
    element and the gesture. No binding of another element is touched, and
    nothing but the list of bindings changes. *)
Theorem unbind_removes_exactly
    (element : Element) (gesture : option positive) (this : Region.t) :
  let result := Region.unbind element gesture this in
  snd result = List.filter (toUnbind element gesture) (Region.bindings this) /\
  fst result =
    Region.set_bindings
      (List.filter (fun b => negb (toUnbind element gesture b))
                   (Region.bindings this)) this /\
  (gesture = None ->
   snd result =
     List.filter (fun b => Pos.eqb (Binding.element b) element)
                 (Region.bindings this)) /\
  (forall b, In b (Region.bindings this) ->
             Binding.element b <> element ->
             In b (Region.bindings (fst result)) /\ ~ In b (snd result)) /\
  (forall b, In b (Region.bindings this) ->
             (In b (snd result) <-> ~ In b (Region.bindings (fst result)))) /\
  (length (Region.bindings (fst result)) + length (snd result)
   = length (Region.bindings this))%nat.
Proof.
  intros result.
  assert (result =
            (Region.set_bindings
               (List.filter (fun b => negb (toUnbind element gesture b))
                            (Region.bindings this)) this,
             List.filter (toUnbind element gesture) (Region.bindings this)))
    as Hres.
  { subst result. unfold Region.unbind, Region.retrieveBindingsByElement.
    apply (unbind_loop element gesture (Region.bindings this) [] this []);
      [reflexivity | intros b []]. }
  rewrite Hres. simpl. split; [reflexivity |]. split; [reflexivity |].
  split; [| split; [| split]].
  - intros ->. apply List.filter_ext. intros b. unfold toUnbind.
    apply andb_true_r.
  - intros b Hin Hne.
    assert (toUnbind element gesture b = false) as Hb.
    { unfold toUnbind. destruct (Pos.eqb_spec (Binding.element b) element);
        [contradiction | reflexivity]. }
    rewrite !filter_In, Hb. split; [auto | intros [_ [=]]].
  - intros b Hin. rewrite !filter_In.
    destruct (toUnbind element gesture b); simpl; split.
    + intros _ [_ [=]].
    + auto.
    + intros [_ [=]].
    + intros H. exfalso. apply H. auto.
  - apply filter_split_length.
Qed.

(** Four bindings, three of them of the same element, two of those of
    the gesture 1. *)
Lemma unbind_removes_exactly_witness :
  let b1 := Binding.mk 1 Sample.element 1 50 in
  let b2 := Binding.mk 2 Sample.childElement 1 50 in
  let b3 := Binding.mk 3 Sample.element 2 50 in
  let b4 := Binding.mk 4 Sample.element 1 51 in
  let r := Region.mk [b1; b2; b3; b4] Sample.body false true ∅ in
  (snd (Region.unbind Sample.element None r) = [b1; b3; b4] /\
   Region.bindings (fst (Region.unbind Sample.element None r)) = [b2]) /\
  (snd (Region.unbind Sample.element (Some 1%positive) r) = [b1; b4] /\
   Region.bindings (fst (Region.unbind Sample.element (Some 1%positive) r)) = [b2; b3]).
Proof.
  intros b1 b2 b3 b4 r. split.
  - destruct (unbind_removes_exactly Sample.element None r) as (Hun & Hleft & _).
    rewrite Hun, Hleft. split; reflexivity.
  - destruct (unbind_removes_exactly Sample.element (Some 1%positive) r) as (Hun & Hleft & _).
    rewrite Hun, Hleft. split; reflexivity.
Defined.

(** ** State: the registry *)

Lemma inputs_spec (st : State.t) input :
  In input (State.inputs st) <-> exists id, st !! id = Some input.
Proof.
  unfold State.inputs. rewrite <- list_elem_of_In, list_elem_of_fmap. split.
  - intros ([id i] & -> & Hin). exists id.
    apply elem_of_map_to_list in Hin. exact Hin.
  - intros [id Hid]. exists (id, input). split; [reflexivity |].
    apply elem_of_map_to_list. exact Hid.
Qed.

Lemma wasInitiallyInside_true element input :
  Input.wasInitiallyInside element input = true <->
  element ∈ Input.initialElements input.
Proof. unfold Input.wasInitiallyInside. apply bool_decide_eq_true. Qed.

Lemma someInputWasInitiallyInside_true element (st : State.t) :
  State.someInputWasInitiallyInside element st = true <->
  exists id input,
    st !! id = Some input /\ element ∈ Input.initialElements input.
Proof.
  unfold State.someInputWasInitiallyInside. rewrite existsb_exists. split.
  - intros (input & Hin & Hinside). apply inputs_spec in Hin as [id Hid].
    exists id, input. split; [exact Hid |].
    apply wasInitiallyInside_true. exact Hinside.
  - intros (id & input & Hid & Hel). exists input. split.
    + apply inputs_spec. exists id. exact Hid.
    + apply wasInitiallyInside_true. exact Hel.
Qed.

(** One pair of a reconciliation: the entry of the identifier is the input
    built or updated from the event, the others are as they were. *)
Lemma updateInput_inr ev id (st : State.t) w (st1 : State.t) w1 :
  State.updateInput ev id st w = inr (st1, w1) ->
  exists input1,
    st1 = <[id := input1]> st /\
    builtFrom ev input1 /\
    match st !! id with
    | Some input =>
        Input.update (Some ev) input w = inr (input1, w1) /\
        Input.initialElements input1 = Input.initialElements input
    | None =>
        Input.constructor (Some ev) id w = inr (input1, w1) /\
        exists path,
          Input.getPropagationPath ev = inr path /\
          Input.initialElements input1 = list_to_set path
    end.
Proof.
  unfold State.updateInput. destruct (st !! id) as [input |] eqn:Hid; intros H.
  - apply bind_inr in H as (input1 & w2 & Hup & Hret).
    unfold ret in Hret. injection Hret as <- <-. exists input1.
    split; [reflexivity |].
    pose proof Hup as Hup'.
    apply Input_update_inr in Hup' as (pd & Hpd & ->).
    apply PointerData_constructor_inr in Hpd as (ev' & eo & [= <-] & _ & -> & _).
    unfold builtFrom, Input.phase. simpl. auto.
  - apply bind_inr in H as (input1 & w2 & Hnew & Hret).
    unfold ret in Hret. injection Hret as <- <-. exists input1.
    split; [reflexivity |].
    pose proof Hnew as Hnew'.
    apply Input_constructor_inr in Hnew' as (pd & path & Hpd & Hpath & ->).
    apply PointerData_constructor_inr in Hpd as (ev' & eo & [= <-] & _ & -> & _).
    unfold builtFrom, Input.phase. simpl in *. eauto 10.
Qed.

Lemma reconcile_origin ev (pairs : list (Z * bool)) :
  forall (st : State.t) w (st1 : State.t) w1,
    foldM (fun st p => State.updateInput ev (fst p) st) pairs st w
      = inr (st1, w1) ->
    forall id, sameStart st st1 id /\ startedBy ev (List.map fst pairs) st st1 id.
Proof.
  induction pairs as [| [id0 isNew] pairs IH]; intros st w st1 w1 H id.
  - simpl in H. unfold ret in H. injection H as <- <-. split.
    + intros input Hin. eauto.
    + intros input1 Hin. left. eauto.
  - simpl in H. apply bind_inr in H as (st' & w' & Hone & Hrest).
    destruct (IH _ _ _ _ Hrest id) as [Hsame Hstart].
    apply updateInput_inr in Hone as (input0 & -> & _ & Hcase).
    split.
    + intros input Hin. destruct (decide (id0 = id)) as [-> | Hne].
      * rewrite Hin in Hcase. destruct Hcase as [_ Hels].
        destruct (Hsame input0) as (input1 & H1 & Hels1);
          [apply lookup_insert_eq |].
        exists input1. split; [exact H1 | congruence].
      * apply Hsame. rewrite lookup_insert_ne; assumption.
    + intros input1 Hin1. simpl.
      destruct (Hstart input1 Hin1)
        as [(input' & Hin' & Hels) | (Hnone & Hids & path & Hpath & Hels)].
      * destruct (decide (id0 = id)) as [-> | Hne].
        -- rewrite lookup_insert_eq in Hin'. injection Hin' as <-.
           destruct (st !! id) as [input |] eqn:Hid.
           ++ left. exists input. destruct Hcase as [_ Hels0].
              split; [reflexivity | congruence].
           ++ right. destruct Hcase as [_ (path & Hpath & Hels0)].
              split; [reflexivity |]. split; [left; reflexivity |].
              exists path. split; [exact Hpath | congruence].
        -- rewrite lookup_insert_ne in Hin' by assumption.
           left. exists input'. auto.
      * destruct (decide (id0 = id)) as [-> | Hne].
        -- rewrite lookup_insert_eq in Hnone. discriminate.
        -- rewrite lookup_insert_ne in Hnone by assumption.
           right. split; [exact Hnone |]. split; [right; exact Hids |].
           exists path. auto.
Qed.

(** After a reconciliation, every identifier the event carries has an
    input, whose current data was built from this event. *)
Lemma reconcile_current ev (pairs : list (Z * bool)) :
  forall (st : State.t) w (st1 : State.t) w1,
    foldM (fun st p => State.updateInput ev (fst p) st) pairs st w
      = inr (st1, w1) ->
    forall id,
      In id (List.map fst pairs) \/
      (exists input, st !! id = Some input /\ builtFrom ev input) ->
      exists input1, st1 !! id = Some input1 /\ builtFrom ev input1.
Proof.
  induction pairs as [| [id0 isNew] pairs IH]; intros st w st1 w1 H id Hid.
  - simpl in H. unfold ret in H. injection H as <- <-.
    destruct Hid as [[] | Hid]. exact Hid.
  - simpl in H. apply bind_inr in H as (st' & w' & Hone & Hrest).
    apply (IH _ _ _ _ Hrest id).
    apply updateInput_inr in Hone as (input0 & -> & Hev & _).
    destruct (decide (id0 = id)) as [-> | Hne].
    + right. exists input0. split; [apply lookup_insert_eq | exact Hev].
    + destruct Hid as [[Heq | Hin] | (input & Hin & Hev')].
      * simpl in Heq. contradiction.
      * left. exact Hin.
      * right. exists input. rewrite lookup_insert_ne by assumption. auto.
Qed.

Lemma clearEndedInputs_lookup (st : State.t) id input :
  State.clearEndedInputs st !! id = Some input <->
  st !! id = Some input /\ ~ State.isTerminal (Input.phase input).
Proof. unfold State.clearEndedInputs. apply map_lookup_filter_Some. Qed.

(** ** Region: the arbitration pass *)

(** The pass, step by step: the reconciliation, the selection against the
    reconciled registry, the dispatch to the selected bindings in their
    order, and the purge. *)
Lemma arbitrate_ok gestures extract ev r w (st1 : State.t) w1 :
  State.updateAllInputs extract ev (Region.element r) (Region.state r) w
    = inr (st1, w1) ->
  Region.arbitrate gestures extract ev r w =
    inr ((Region.set_state (State.clearEndedInputs st1) r,
          (if Region.preventDefault r then [ObsPreventDefault] else []) ++
          flat_map (Binding.evaluateHook gestures (PHASE (Event.type ev)) st1)
            (List.filter
               (fun b => State.someInputWasInitiallyInside (Binding.element b) st1)
               (Region.bindings r))),
         w1).
Proof.
  intros H. unfold Region.arbitrate. rewrite (bind_step _ _ _ _ _ H).
  reflexivity.
Qed.

Lemma arbitrate_inr gestures extract ev r w r' tr w' :
  Region.arbitrate gestures extract ev r w = inr ((r', tr), w') ->
  exists st1 : State.t,
    State.updateAllInputs extract ev (Region.element r) (Region.state r) w
      = inr (st1, w') /\
    r' = Region.set_state (State.clearEndedInputs st1) r /\
    tr = (if Region.preventDefault r then [ObsPreventDefault] else []) ++
         flat_map (Binding.evaluateHook gestures (PHASE (Event.type ev)) st1)
           (List.filter
              (fun b => State.someInputWasInitiallyInside (Binding.element b) st1)
              (Region.bindings r)).
Proof.
  intros H.
  destruct (State.updateAllInputs extract ev (Region.element r)
              (Region.state r) w) as [e | [st1 w1]] eqn:Hup.
  - rewrite (arbitrate_inl _ _ _ _ _ _ Hup) in H. discriminate.
  - rewrite (arbitrate_ok _ _ _ _ _ _ _ Hup) in H.
    injection H as <- <- <-. exists st1. auto.
Qed.

(** The hook calls of a dispatch are calls to selected bindings, with the
    registry and the phase of the dispatch. *)
Lemma dispatch_hooks gestures hook (st : State.t) bs b phase st' :
  In (ObsHook b phase st')
     (flat_map (Binding.evaluateHook gestures hook st) bs) ->
  In b bs /\ hook = Some phase /\ st' = st /\
  exists h, gestures (Binding.gesture b) phase = Some h.
Proof.
  rewrite in_flat_map. intros (b0 & Hb0 & Hin).
  unfold Binding.evaluateHook in Hin.
  destruct hook as [phase0 |]; [| destruct Hin].
  destruct (gestures (Binding.gesture b0) phase0) as [h |] eqn:Hh;
    [| destruct Hin].
  destruct Hin as [[= <- <- <-] | Hin].
  - eauto.
  - destruct (isNullish _); [destruct Hin |].
    destruct Hin as [[=] | []].
Qed.

Lemma dispatch_calls_hook gestures phase (st : State.t) bs b h :
  In b bs ->
  gestures (Binding.gesture b) phase = Some h ->
  In (ObsHook b phase st)
     (flat_map (Binding.evaluateHook gestures (Some phase) st) bs).
Proof.
  intros Hb Hh. apply in_flat_map. exists b. split; [exact Hb |].
  unfold Binding.evaluateHook. rewrite Hh. left. reflexivity.
Qed.

(** ** The start path *)

Lemma walkToDocument_inr node :
  forall chain,
    Input.walkToDocument node = inr chain <->
    exists rest,
      ancestors node = chain ++ document :: rest /\ ~ In document chain.
Proof.
  induction node as [| self parent IH]; intros chain;
    cbn [Input.walkToDocument ancestors].
  - split; [discriminate |]. intros (rest & Hanc & _).
    destruct chain; discriminate.
  - destruct (Pos.eqb_spec self document) as [-> | Hne].
    + split.
      * intros [= <-]. exists (ancestors parent). split; [reflexivity | intros []].
      * intros (rest & Hanc & Hnin). destruct chain as [| c chain].
        -- reflexivity.
        -- injection Hanc as <- _. exfalso. apply Hnin. left. reflexivity.
    + split.
      * destruct (Input.walkToDocument parent) as [e | path] eqn:Hwalk;
          [intros [=] |].
        intros [= <-]. destruct (proj1 (IH path) eq_refl) as (rest & Hanc & Hnin).
        exists rest. split; [rewrite Hanc; reflexivity |].
        intros [Heq | Hin]; [congruence | contradiction].
      * intros (rest & Hanc & Hnin). destruct chain as [| c chain].
        -- injection Hanc as Heq _. contradiction.
        -- injection Hanc as <- Hanc.
           assert (Input.walkToDocument parent = inr chain) as ->.
           { apply (proj2 (IH _)). exists rest. split; [exact Hanc |].
             intros Hin. apply Hnin. right. exact Hin. }
           reflexivity.
Qed.

Lemma walkToDocument_inl node :
  (exists e, Input.walkToDocument node = inl e) <-> ~ In document (ancestors node).
Proof.
  induction node as [| self parent IH]; cbn [Input.walkToDocument ancestors].
  - split; [intros _ [] | intros _; eexists; reflexivity].
  - destruct (Pos.eqb_spec self document) as [-> | Hne].
    + split; [intros [e [=]] | intros H; exfalso; apply H; left; reflexivity].
    + destruct (Input.walkToDocument parent) as [e | path] eqn:Hwalk.
      * split.
        -- intros _ [Heq | Hin]; [contradiction |].
           exact (proj1 IH (ex_intro _ e eq_refl) Hin).
        -- intros _. eexists. reflexivity.
      * split; [intros [e [=]] |].
        intros Hnin.
        destruct (proj2 IH (fun Hin => Hnin (or_intror Hin))) as [e [=]].
Qed.

Lemma step_initialElements x y :
  InputStep x y ->
  Input.initialElements (snd y) = Input.initialElements (snd x).
Proof.
  intros [Hup | Hother].
  - destruct Hup as [event w input input' w' Hup].
    apply Input_update_inr in Hup as (pd & _ & ->). reflexivity.
  - destruct Hother as [id w input r input' w' Hget | w w' input Hle];
      [| reflexivity].
    apply getProgressOfGesture_inr in Hget as [[-> ->] | (Hid & _ & -> & ->)].
    + reflexivity.
    + reflexivity.
Qed.

Lemma steps_initialElements x y :
  rtc InputStep x y ->
  Input.initialElements (snd y) = Input.initialElements (snd x).
Proof.
  intros H. induction H as [| x y z Hxy _ IH]; [reflexivity |].
  rewrite IH. apply step_initialElements. exact Hxy.
Qed.

(** A binding is selected as soon as one input of the registry started
    inside its element. *)
Lemma selected_of_started r b id input :
  In b (Region.bindings r) ->
  Region.state r !! id = Some input ->
  Binding.element b ∈ Input.initialElements input ->
  In b (Region.retrieveBindingsByInitialPos r).
Proof.
  intros Hb Hid Hel. unfold Region.retrieveBindingsByInitialPos.
  apply filter_In. split; [exact Hb |].
  apply someInputWasInitiallyInside_true. eauto.
Qed.

(** A pass calls the hook of every binding whose element some input alive
    before the pass started inside, when the gesture has a hook for the
    phase of the event. *)
Lemma arbitrate_calls_started gestures extract ev r w r' tr w' b id input phase h :
  Region.arbitrate gestures extract ev r w = inr ((r', tr), w') ->
  In b (Region.bindings r) ->
  Region.state r !! id = Some input ->
  Binding.element b ∈ Input.initialElements input ->
  PHASE (Event.type ev) = Some phase ->
  gestures (Binding.gesture b) phase = Some h ->
  exists st, In (ObsHook b phase st) tr.
Proof.
  intros Hpass Hb Hid Hel Hphase Hh.
  apply arbitrate_inr in Hpass as (st1 & Hup & _ & ->).
  unfold State.updateAllInputs in Hup.
  destruct (reconcile_origin _ _ _ _ _ _ Hup id) as [Hsame _].
  destruct (Hsame input Hid) as (input1 & Hid1 & Hels).
  exists st1. apply in_or_app. right. rewrite Hphase.
  eapply dispatch_calls_hook; [| exact Hh].
  apply filter_In. split; [exact Hb |].
  apply someInputWasInitiallyInside_true. exists id, input1.
  split; [exact Hid1 |]. rewrite Hels. exact Hel.
Qed.

(** C9. When the event has no [composedPath], the start elements of the
    input built from it are the nodes from the target of the event up its
    chain of parents to the document, the document not included, then the
    document and the window: the walk returns those nodes, and an element
    is a start element exactly when it is one of them, the document or the
    window. The input was initially inside the document and inside the
    window, and stays so for its whole life. A binding to the document or
    to the window is therefore selected whenever such an input is in the
    registry, and every pass then calls its hook for the phase, when it
    has one. *)
Theorem fallback_path_reaches_window
    (ev : Event.t) (identifier : Z) (w : World) (input : Input.t) (w' : World) :
  Event.composedPath ev = None ->
  Input.constructor (Some ev) identifier w = inr (input, w') ->
  (exists chain rest,
      ancestors (Event.target ev) = chain ++ document :: rest /\
      ~ In document chain /\
      Input.walkToDocument (Event.target ev) = inr chain /\
      Input.getPropagationPath ev = inr (chain ++ [document; window]) /\
      Input.initialElements input = list_to_set (chain ++ [document; window]) /\
      forall element,
        Input.wasInitiallyInside element input = true <->
        In element chain \/ element = document \/ element = window) /\
  forall w2 input2,
    rtc InputStep (w', input) (w2, input2) ->
    Input.wasInitiallyInside document input2 = true /\
    Input.wasInitiallyInside window input2 = true /\
    forall r id b,
      Region.state r !! id = Some input2 ->
      In b (Region.bindings r) ->
      Binding.element b = document \/ Binding.element b = window ->
      In b (Region.retrieveBindingsByInitialPos r) /\
      forall gestures extract ev' w3 r' tr w4 phase h,
        Region.arbitrate gestures extract ev' r w3 = inr ((r', tr), w4) ->
        PHASE (Event.type ev') = Some phase ->
        gestures (Binding.gesture b) phase = Some h ->
        exists st, In (ObsHook b phase st) tr.
Proof.
  intros Hno Hnew.
  apply Input_constructor_inr in Hnew as (pd & path & Hpd & Hpath & ->).
  apply PointerData_constructor_inr in Hpd as (ev' & eo & [= <-] & _ & -> & _).
  simpl in Hpath. pose proof Hpath as Hpath'.
  unfold Input.getPropagationPath in Hpath. rewrite Hno in Hpath.
  destruct (Input.walkToDocument (Event.target ev)) as [e | chain] eqn:Hwalk;
    [discriminate |].
  injection Hpath as <-. simpl.
  split.
  { pose proof Hwalk as Hanc.
    apply walkToDocument_inr in Hanc as (rest & Hanc & Hnin).
    exists chain, rest. split; [exact Hanc |]. split; [exact Hnin |].
    split; [reflexivity |]. split; [exact Hpath' |]. split; [reflexivity |].
    intros element. unfold Input.wasInitiallyInside. simpl.
    rewrite bool_decide_eq_true, elem_of_list_to_set, list_elem_of_In, in_app_iff.
    simpl. split; intros [H | H]; auto.
    - destruct H as [<- | [<- | []]]; auto.
    - right. destruct H as [-> | ->]; auto. }
  intros w2 input2 Hlife.
  pose proof (steps_initialElements _ _ Hlife) as Hels. simpl in Hels.
  assert (document ∈ Input.initialElements input2) as Hdoc.
  { rewrite Hels. rewrite elem_of_list_to_set, elem_of_app.
    right. rewrite !elem_of_cons. auto. }
  assert (window ∈ Input.initialElements input2) as Hwin.
  { rewrite Hels. rewrite elem_of_list_to_set, elem_of_app.
    right. rewrite !elem_of_cons. auto. }
  split; [apply wasInitiallyInside_true; exact Hdoc |].
  split; [apply wasInitiallyInside_true; exact Hwin |].
  intros r id b Hid Hb Hel.
  assert (Binding.element b ∈ Input.initialElements input2) as Hin
    by (destruct Hel as [-> | ->]; assumption).
  split; [eapply selected_of_started; eassumption |].
  intros gestures extract ev' w3 r' tr w4 phase h Hpass Hphase Hh.
  eapply arbitrate_calls_started; eassumption.
Qed.

(** The input of the test suite, on the [div] under the body, and a
    region with a binding to the window. *)
Lemma fallback_path_reaches_window_witness :
  exists input w',
    Input.constructor (Some (Sample.mousedown Sample.elementNode 42 43)) 1234
      Sample.world0 = inr (input, w') /\
    Input.wasInitiallyInside Sample.element input = true /\
    Input.wasInitiallyInside Sample.body input = true /\
    Input.wasInitiallyInside Sample.childElement input = false /\
    Input.wasInitiallyInside document input = true /\
    Input.wasInitiallyInside window input = true /\
    In (Binding.mk 1 window 1 50)
       (Region.retrieveBindingsByInitialPos
          (Region.mk [Binding.mk 1 window 1 50] Sample.body false true
                     {[ 1234 := input ]})).
Proof.
  destruct (Input.constructor (Some (Sample.mousedown Sample.elementNode 42 43))
              1234 Sample.world0) as [e | [input w']] eqn:Hnew;
    [discriminate |].
  exists input, w'.
  destruct (fallback_path_reaches_window
              (Sample.mousedown Sample.elementNode 42 43) _ _ _ _ eq_refl Hnew)
    as [(chain & rest & _ & _ & Hwalk & _ & _ & Hinside) Hlife].
  vm_compute in Hwalk. injection Hwalk as <-.
  destruct (Hlife w' input (rtc_refl _ _)) as (Hdoc & Hwin & Hsel).
  split; [reflexivity |].
  split; [apply Hinside; left; left; reflexivity |].
  split; [apply Hinside; left; right; left; reflexivity |].
  split.
  { destruct (Input.wasInitiallyInside Sample.childElement input) eqn:Hchild;
      [| reflexivity].
    apply Hinside in Hchild.
    destruct Hchild as [[H | [H | [H | []]]] | [H | H]]; discriminate. }
  split; [exact Hdoc |]. split; [exact Hwin |].
  refine (proj1 (Hsel (Region.mk [Binding.mk 1 window 1 50] Sample.body false
                                 true {[ 1234 := input ]})
                      1234 (Binding.mk 1 window 1 50) _ _ _)).
  - apply lookup_singleton_eq.
  - left. reflexivity.
  - right. reflexivity.
Defined.

(** ** Started inside *)

Lemma noneStartedInside_empty element : noneStartedInside element ∅.
Proof. intros id input Hid. rewrite lookup_empty in Hid. discriminate. Qed.

Lemma reconcile_outside element extract ev (st : State.t) el w (st1 : State.t) w1 :
  noneStartedInside element st ->
  startsOutside element extract st ev ->
  State.updateAllInputs extract ev el st w = inr (st1, w1) ->
  noneStartedInside element st1.
Proof.
  intros Hnone Hstart Hup id input1 Hid1.
  unfold State.updateAllInputs in Hup.
  destruct (reconcile_origin _ _ _ _ _ _ Hup id) as [_ Horigin].
  destruct (Horigin input1 Hid1)
    as [(input & Hid & Hels) | (Hid & Hids & path & Hpath & Hels)].
  - rewrite Hels. eapply Hnone. exact Hid.
  - rewrite Hels, elem_of_list_to_set. eapply Hstart; eassumption.
Qed.

Lemma pass_outside gestures extract element ev r w r' tr w' :
  noneStartedInside element (Region.state r) ->
  startsOutside element extract (Region.state r) ev ->
  Region.arbitrate gestures extract ev r w = inr ((r', tr), w') ->
  (forall b phase st, In (ObsHook b phase st) tr -> Binding.element b <> element) /\
  noneStartedInside element (Region.state r').
Proof.
  intros Hnone Hstart Hpass.
  apply arbitrate_inr in Hpass as (st1 & Hup & -> & ->).
  pose proof (reconcile_outside _ _ _ _ _ _ _ _ Hnone Hstart Hup) as Hnone1.
  split.
  - intros b phase st [Hin | Hin]%in_app_or.
    + destruct (Region.preventDefault r); [| destruct Hin].
      destruct Hin as [[=] | []].
    + apply dispatch_hooks in Hin as (Hb & _ & _ & _).
      apply filter_In in Hb as [_ Hsel].
      apply someInputWasInitiallyInside_true in Hsel as (id & input & Hid & Hel).
      intros Heq. rewrite Heq in Hel. exact (Hnone1 id input Hid Hel).
  - intros id input Hid. simpl in Hid.
    apply clearEndedInputs_lookup in Hid as [Hid _].
    eapply Hnone1. exact Hid.
Qed.

Lemma passes_outside gestures extract element x tr y :
  PassesOutside gestures extract element x tr y ->
  noneStartedInside element (Region.state (fst x)) ->
  forall b phase st, In (ObsHook b phase st) tr -> Binding.element b <> element.
Proof.
  induction 1 as [x | r w ev r1 tr1 w1 tr y Hstart Hpass _ IH]; intros Hnone.
  - intros b phase st [].
  - simpl in Hnone.
    destruct (pass_outside _ _ _ _ _ _ _ _ _ Hnone Hstart Hpass) as [Hhere Hnone1].
    intros b phase st [Hin | Hin]%in_app_or.
    + eapply Hhere. exact Hin.
    + eapply IH; [exact Hnone1 | exact Hin].
Qed.

(** C1. The test that decides whether a binding applies is true of an
    element exactly when some input of the registry has the element among
    its start elements. Updating an input, from whatever event, leaves the
    answer as it was. So, from a registry none of whose inputs started
    inside the element, over any run of passes during which no input
    starts inside it, whatever the events of the inputs alive are and
    wherever they point, no hook of a binding to that element is called. *)
Theorem started_inside_decides_binding
    (gestures : Binding.Gestures) (extract : State.Extractor)
    (element : Element) :
  (forall st : State.t,
      State.someInputWasInitiallyInside element st = true <->
      exists id input,
        st !! id = Some input /\ element ∈ Input.initialElements input) /\
  (forall (st : State.t) id input event input' w w',
      st !! id = Some input ->
      Input.update event input w = inr (input', w') ->
      Input.wasInitiallyInside element input'
        = Input.wasInitiallyInside element input /\
      State.someInputWasInitiallyInside element (<[id := input']> st)
        = State.someInputWasInitiallyInside element st) /\
  (forall r w tr r' w',
      noneStartedInside element (Region.state r) ->
      PassesOutside gestures extract element (r, w) tr (r', w') ->
      forall b phase st,
        In (ObsHook b phase st) tr -> Binding.element b <> element).
Proof.
  split; [intros st; apply someInputWasInitiallyInside_true |].
  split.
  - intros st id input event input' w w' Hid Hup.
    apply Input_update_inr in Hup as (pd & _ & ->).
    split; [reflexivity |].
    apply eq_true_iff_eq. rewrite !someInputWasInitiallyInside_true. split.
    + intros (id' & input' & Hid' & Hel).
      destruct (decide (id = id')) as [<- | Hne].
      * rewrite lookup_insert_eq in Hid'. injection Hid' as <-.
        exists id, input. auto.
      * rewrite lookup_insert_ne in Hid' by assumption. eauto.
    + intros (id' & input' & Hid' & Hel).
      destruct (decide (id = id')) as [<- | Hne].
      * rewrite Hid in Hid'. injection Hid' as <-.
        eexists id, _. rewrite lookup_insert_eq. split; [reflexivity |].
        exact Hel.
      * exists id', input'. rewrite lookup_insert_ne by assumption. auto.
  - intros r w tr r' w' Hnone Hrun.
    exact (passes_outside _ _ _ _ _ _ Hrun Hnone).
Qed.

(** ** The order of a pass *)

(** C2. When the reconciliation of the registry with the event succeeds,
    so does the pass, and: every hook called is called with the reconciled
    registry, for the phase of the event, on a binding selected against
    that registry, and every binding so selected has its hook called; in
    that registry every identifier the event carries has its input, whose
    current data is built from the event; the registry left in the region
    is the purge of the reconciled one, so an input whose phase is terminal
    is in the registry every hook sees and not in the region afterwards,
    and the inputs that have not ended stay. *)
Theorem arbitrate_order
    (gestures : Binding.Gestures) (extract : State.Extractor)
    (ev : Event.t) (r : Region.t) (w : World) (st1 : State.t) (w1 : World) :
  State.updateAllInputs extract ev (Region.element r) (Region.state r) w
    = inr (st1, w1) ->
  exists r' tr,
    Region.arbitrate gestures extract ev r w = inr ((r', tr), w1) /\
    (forall b phase st,
        In (ObsHook b phase st) tr ->
        st = st1 /\ PHASE (Event.type ev) = Some phase /\
        In b (Region.bindings r) /\
        State.someInputWasInitiallyInside (Binding.element b) st1 = true) /\
    (forall b phase h,
        In b (Region.bindings r) ->
        State.someInputWasInitiallyInside (Binding.element b) st1 = true ->
        PHASE (Event.type ev) = Some phase ->
        gestures (Binding.gesture b) phase = Some h ->
        In (ObsHook b phase st1) tr) /\
    (forall id,
        In id (List.map fst (extract ev)) ->
        exists input, st1 !! id = Some input /\ builtFrom ev input) /\
    Region.state r' = State.clearEndedInputs st1 /\
    Region.bindings r' = Region.bindings r /\
    (forall id input,
        st1 !! id = Some input ->
        State.isTerminal (Input.phase input) ->
        Region.state r' !! id = None) /\
    (forall id input,
        st1 !! id = Some input ->
        ~ State.isTerminal (Input.phase input) ->
        Region.state r' !! id = Some input) /\
    (PHASE (Event.type ev) = Some PEnd ->
     forall id,
       In id (List.map fst (extract ev)) ->
       (exists input, st1 !! id = Some input /\ Input.phase input = Some PEnd) /\
       Region.state r' !! id = None).
Proof.
  intros Hup. eexists _, _.
  split; [apply arbitrate_ok; exact Hup |]. simpl.
  assert (forall id input,
             st1 !! id = Some input ->
             State.isTerminal (Input.phase input) ->
             State.clearEndedInputs st1 !! id = None) as Hgone.
  { intros id input Hid Hterm.
    destruct (State.clearEndedInputs st1 !! id) as [input' |] eqn:Hc;
      [| reflexivity].
    apply clearEndedInputs_lookup in Hc as [Hid' Hnot].
    rewrite Hid in Hid'. injection Hid' as <-. contradiction. }
  assert (forall id,
             In id (List.map fst (extract ev)) ->
             exists input, st1 !! id = Some input /\ builtFrom ev input)
    as Hcur.
  { intros id Hid. unfold State.updateAllInputs in Hup.
    eapply reconcile_current; [exact Hup | left; exact Hid]. }
  split; [| split; [| split; [exact Hcur |
                               split; [reflexivity | split; [reflexivity |]]]]].
  - intros b phase st [Hin | Hin]%in_app_or.
    + destruct (Region.preventDefault r); [| destruct Hin].
      destruct Hin as [[=] | []].
    + apply dispatch_hooks in Hin as (Hb & Hphase & -> & _).
      apply filter_In in Hb as [Hb Hsel]. auto.
  - intros b phase h Hb Hsel Hphase Hh. apply in_or_app. right.
    rewrite Hphase. eapply dispatch_calls_hook; [| exact Hh].
    apply filter_In. auto.
  - split; [exact Hgone |]. split.
    + intros id input Hid Hnot. apply clearEndedInputs_lookup. auto.
    + intros Hend id Hid. destruct (Hcur id Hid) as (input & Hin & _ & Hphase).
      rewrite Hend in Hphase. split; [eauto |].
      eapply Hgone; [exact Hin |]. left. exact Hphase.
Qed.

(** An input starts on [element], moves over [elsewhere] and ends there:
    the three passes call the hooks of the binding to [element], and none
    of the binding to [elsewhere]. *)
Lemma started_inside_decides_binding_witness :
  exists r' w' tr,
    PassesOutside Sample.gestures Sample.extract Sample.elsewhere
      (Sample.region, Sample.world0) tr (r', w') /\
    (forall b phase st,
        In (ObsHook b phase st) tr -> Binding.element b <> Sample.elsewhere) /\
    List.map (fun c => (Binding.bid (fst (fst c)), snd (fst c))) (hookCalls tr)
      = [(1%positive, PStart); (1%positive, PMove); (1%positive, PEnd)].
Proof.
  destruct (Region.arbitrate Sample.gestures Sample.extract
              (Sample.mousedown Sample.elementNode 10 10)
              Sample.region Sample.world0)
    as [e | [[r1 tr1] w1]] eqn:H1; [vm_compute in H1; discriminate |].
  pose proof H1 as E1. vm_compute in E1. injection E1 as <- <- <-.
  match type of H1 with _ = inr ((?r, ?t), ?w) =>
    set (r1 := r) in *; set (tr1 := t) in *; set (w1 := w) in * end.
  destruct (Region.arbitrate Sample.gestures Sample.extract
              (Sample.mousemove Sample.elsewhereNode 15 12) r1 w1)
    as [e | [[r2 tr2] w2]] eqn:H2; [vm_compute in H2; discriminate |].
  pose proof H2 as E2. vm_compute in E2. injection E2 as <- <- <-.
  match type of H2 with _ = inr ((?r, ?t), ?w) =>
    set (r2 := r) in *; set (tr2 := t) in *; set (w2 := w) in * end.
  destruct (Region.arbitrate Sample.gestures Sample.extract
              (Sample.mouseup Sample.elsewhereNode 15 12) r2 w2)
    as [e | [[r3 tr3] w3]] eqn:H3; [vm_compute in H3; discriminate |].
  assert (PassesOutside Sample.gestures Sample.extract Sample.elsewhere
            (Sample.region, Sample.world0) (tr1 ++ tr2 ++ tr3 ++ []) (r3, w3))
    as Hrun.
  { eapply passes_next; [| exact H1 |].
    { intros id _ _ path Hpath. vm_compute in Hpath. injection Hpath as <-.
      intros Hin. repeat (apply elem_of_cons in Hin as [Hin | Hin];
                          [discriminate |]).
      inversion Hin. }
    eapply passes_next; [| exact H2 |].
    { intros id [<- | []] Hnone. vm_compute in Hnone. discriminate. }
    eapply passes_next; [| exact H3 | apply passes_done].
    intros id [<- | []] Hnone. vm_compute in Hnone. discriminate. }
  exists r3, w3, (tr1 ++ tr2 ++ tr3 ++ []).
  split; [exact Hrun |]. split.
  - refine (proj2 (proj2 (started_inside_decides_binding Sample.gestures
                            Sample.extract Sample.elsewhere))
                  _ _ _ _ _ _ Hrun).
    apply noneStartedInside_empty.
  - vm_compute in H3. injection H3 as <- <- <-. vm_compute. reflexivity.
Defined.

(** An input starts and, in the next pass, ends: the hook of the end phase
    sees the input, ended, in the registry, and the region has lost it
    after the pass. *)
Lemma arbitrate_order_witness :
  exists r1 tr1 w1 st1 r' tr w2,
    Region.arbitrate Sample.gestures Sample.extract
      (Sample.mousedown Sample.elementNode 10 10) Sample.region Sample.world0
      = inr ((r1, tr1), w1) /\
    Region.arbitrate Sample.gestures Sample.extract
      (Sample.mouseup Sample.elementNode 15 12) r1 w1 = inr ((r', tr), w2) /\
    (exists input, st1 !! 0 = Some input /\ Input.phase input = Some PEnd) /\
    List.map (fun c => Binding.bid (fst (fst c))) (hookCalls tr) = [1%positive] /\
    (forall b phase st, In (ObsHook b phase st) tr -> st = st1) /\
    Region.state r' !! 0 = None.
Proof.
  destruct (Region.arbitrate Sample.gestures Sample.extract
              (Sample.mousedown Sample.elementNode 10 10)
              Sample.region Sample.world0)
    as [e | [[r1 tr1] w1]] eqn:H1; [vm_compute in H1; discriminate |].
  pose proof H1 as E1. vm_compute in E1. injection E1 as <- <- <-.
  match type of H1 with _ = inr ((?r, ?t), ?w) =>
    set (r1 := r) in *; set (tr1 := t) in *; set (w1 := w) in * end.
  destruct (State.updateAllInputs Sample.extract
              (Sample.mouseup Sample.elementNode 15 12)
              (Region.element r1) (Region.state r1) w1)
    as [e | [st1 w2]] eqn:H2; [vm_compute in H2; discriminate |].
  destruct (arbitrate_order Sample.gestures Sample.extract _ _ _ _ _ H2)
    as (r' & tr & Hpass & Hhooks & _ & _ & _ & _ & _ & _ & Hend).
  destruct (Hend eq_refl 0 (or_introl eq_refl)) as [Hthere Hgone].
  exists r1, tr1, w1, st1, r', tr, w2.
  split; [reflexivity |]. split; [exact Hpass |]. split; [exact Hthere |].
  split; [| split; [| exact Hgone]].
  - vm_compute in Hpass. injection Hpass as <- <- _. vm_compute. reflexivity.
  - intros b phase st Hin. exact (proj1 (Hhooks b phase st Hin)).
Defined.

(** Two fingers. The touch 1 starts on [element], outside [elsewhere];
    the touch 2 starts on [elsewhere] and stays. The touch 1 moves: the
    pass for its event calls the move hook of the binding to [elsewhere]
    too. *)
Lemma started_elsewhere_counterexample :
  exists r1 tr1 w1 r2 tr2 w2 r3 tr3 w3 input,
    Region.arbitrate Sample.gestures Sample.extract
      (Sample.touchstart Sample.elementNode 1 10 10) Sample.region Sample.world0
      = inr ((r1, tr1), w1) /\
    Region.arbitrate Sample.gestures Sample.extract
      (Sample.touchstart Sample.elsewhereNode 2 90 90) r1 w1
      = inr ((r2, tr2), w2) /\
    Region.state r2 !! 1 = Some input /\
    Input.wasInitiallyInside Sample.elsewhere input = false /\
    List.map fst (Sample.extract (Sample.touchmove Sample.elementNode 1 15 12))
      = [1] /\
    Region.arbitrate Sample.gestures Sample.extract
      (Sample.touchmove Sample.elementNode 1 15 12) r2 w2
      = inr ((r3, tr3), w3) /\
    Binding.element Sample.onElsewhere = Sample.elsewhere /\
    Binding.bid Sample.onElsewhere = 2%positive /\
    List.map (fun c => (Binding.bid (fst (fst c)), snd (fst c))) (hookCalls tr3)
      = [(1%positive, PMove); (2%positive, PMove)].
Proof.
  destruct (Region.arbitrate Sample.gestures Sample.extract
              (Sample.touchstart Sample.elementNode 1 10 10)
              Sample.region Sample.world0)
    as [e | [[r1 tr1] w1]] eqn:H1; [vm_compute in H1; discriminate |].
  pose proof H1 as E1. vm_compute in E1. injection E1 as <- <- <-.
  match type of H1 with _ = inr ((?r, ?t), ?w) =>
    set (r1 := r) in *; set (tr1 := t) in *; set (w1 := w) in * end.
  destruct (Region.arbitrate Sample.gestures Sample.extract
              (Sample.touchstart Sample.elsewhereNode 2 90 90) r1 w1)
    as [e | [[r2 tr2] w2]] eqn:H2; [vm_compute in H2; discriminate |].
  pose proof H2 as E2. vm_compute in E2. injection E2 as <- <- <-.
  match type of H2 with _ = inr ((?r, ?t), ?w) =>
    set (r2 := r) in *; set (tr2 := t) in *; set (w2 := w) in * end.
  destruct (Region.arbitrate Sample.gestures Sample.extract
              (Sample.touchmove Sample.elementNode 1 15 12) r2 w2)
    as [e | [[r3 tr3] w3]] eqn:H3; [vm_compute in H3; discriminate |].
  destruct (Region.state r2 !! 1) as [input |] eqn:Hin;
    [| vm_compute in Hin; discriminate].
  exists r1, tr1, w1, r2, tr2, w2, r3, tr3, w3, input.
  split; [reflexivity |]. split; [exact H2 |]. split; [exact Hin |].
  split; [vm_compute in Hin; injection Hin as <-; vm_compute; reflexivity |].
  split; [reflexivity |]. split; [exact H3 |]. split; [reflexivity |].
  split; [reflexivity |].
  vm_compute in H3. injection H3 as <- <- <-. vm_compute. reflexivity.
Defined.

(** * Further properties *)

(** ** The propagation path *)

(** X1. Without [composedPath], the path is computed exactly when the
    document is the target or one of its ancestors: it is then the nodes
    from the target up to, not including, the first occurrence of the
    document, followed by the document and the window. When the chain of
    parents ends without meeting the document (a detached node, or the
    window itself), the walk throws, and so does [new Input], although
    the PointerData could be built. *)
Theorem fallback_path_needs_document (ev : Event.t) :
  Event.composedPath ev = None ->
  (forall path,
      Input.getPropagationPath ev = inr path <->
      exists chain rest,
        ancestors (Event.target ev) = chain ++ document :: rest /\
        ~ In document chain /\
        path = chain ++ [document; window]) /\
  ((exists e, Input.getPropagationPath ev = inl e) <->
   ~ In document (ancestors (Event.target ev))) /\
  (~ In document (ancestors (Event.target ev)) ->
   forall identifier w, exists e, Input.constructor (Some ev) identifier w = inl e).
Proof.
  intros Hno.
  assert ((exists e, Input.getPropagationPath ev = inl e) <->
          ~ In document (ancestors (Event.target ev))) as Hfail.
  { rewrite <- walkToDocument_inl. unfold Input.getPropagationPath.
    rewrite Hno. destruct (Input.walkToDocument (Event.target ev)) as [e | p].
    - split; intros _; eexists; reflexivity.
    - split; intros [e [=]]. }
  split; [| split; [exact Hfail |]].
  - intros path. unfold Input.getPropagationPath. rewrite Hno.
    destruct (Input.walkToDocument (Event.target ev)) as [e | chain] eqn:Hwalk.
    + split; [discriminate |]. intros (chain & rest & Hanc & Hnin & _).
      assert (Input.walkToDocument (Event.target ev) = inr chain) as Hok
        by (apply walkToDocument_inr; eauto).
      congruence.
    + pose proof Hwalk as Hwalk'.
      apply walkToDocument_inr in Hwalk' as (rest & Hanc & Hnin). split.
      * intros [= <-]. exists chain, rest. auto.
      * intros (chain' & rest' & Hanc' & Hnin' & ->).
        assert (Input.walkToDocument (Event.target ev) = inr chain') as Hok
          by (apply walkToDocument_inr; eauto).
        congruence.
  - intros Hnin identifier w. apply Hfail in Hnin as [e He].
    unfold Input.constructor, bind.
    destruct (PointerData.constructor (Some ev) identifier w) as [e' | [pd w1]];
      [eexists; reflexivity |].
    unfold Input.getElementsInPath. rewrite He. eexists. reflexivity.
Qed.

(** A mouse event whose target is the window: the path walk throws. *)
Lemma fallback_path_needs_document_witness :
  exists e,
    Input.constructor
      (Some (Sample.mousedown (Node window Null) 1 1)) 0 Sample.world0 = inl e.
Proof.
  refine (proj2 (proj2 (fallback_path_needs_document
                          (Sample.mousedown (Node window Null) 1 1) eq_refl))
                _ 0 Sample.world0).
  simpl. intros [H | []]. discriminate.
Defined.

(** X2. With [composedPath], the start elements are exactly the elements
    the method returns: the target and its parents play no part, so the
    construction of the input succeeds whenever that of the PointerData
    does, detached target or not, and the document and the window are
    start elements only when the method lists them. *)
Theorem composedPath_is_start_path
    (ev : Event.t) (path : list Element) (identifier : Z) (w : World)
    (pd : PointerData.t) (w' : World) :
  Event.composedPath ev = Some path ->
  PointerData.constructor (Some ev) identifier w = inr (pd, w') ->
  exists input,
    Input.constructor (Some ev) identifier w = inr (input, w') /\
    Input.initialElements input = list_to_set path /\
    forall element,
      Input.wasInitiallyInside element input = true <-> In element path.
Proof.
  intros Hpath Hpd. unfold Input.constructor.
  rewrite (bind_step _ _ _ _ _ Hpd). unfold bind, Input.getElementsInPath,
    Input.getPropagationPath, ret. rewrite Hpath.
  eexists. split; [reflexivity |]. simpl. split; [reflexivity |].
  intros element. unfold Input.wasInitiallyInside. simpl.
  rewrite bool_decide_eq_true, elem_of_list_to_set. apply list_elem_of_In.
Qed.

(** An event on a detached node that brings its own path. *)
Lemma composedPath_is_start_path_witness :
  let ev := {| Event.type := "pointerdown"; Event.target := Node Sample.element Null;
               Event.clientX := 3; Event.clientY := 4;
               Event.changedTouches := None;
               Event.composedPath := Some [Sample.element; Sample.body];
               Event.timeStamp := 0 |} in
  exists input w',
    Input.constructor (Some ev) 1 Sample.world0 = inr (input, w') /\
    Input.wasInitiallyInside Sample.body input = true /\
    Input.wasInitiallyInside document input = false.
Proof.
  intros ev.
  destruct (PointerData.constructor (Some ev) 1 Sample.world0)
    as [e | [pd w']] eqn:Hpd; [discriminate |].
  destruct (composedPath_is_start_path ev _ 1 Sample.world0 pd w' eq_refl Hpd)
    as (input & Hnew & _ & Hin).
  exists input, w'. split; [exact Hnew |]. split.
  - apply Hin. right. left. reflexivity.
  - destruct (Input.wasInitiallyInside document input) eqn:Hdoc; [| reflexivity].
    apply Hin in Hdoc. destruct Hdoc as [H | [H | []]]; discriminate.
Defined.

(** ** The input over its lifetime *)

Lemma PointerData_type_of_event event identifier w pd w' :
  PointerData.constructor event identifier w = inr (pd, w') ->
  PointerData.type pd = PHASE (Event.type (PointerData.originalEvent pd)) /\
  PointerData.time pd = clock w.
Proof.
  intros H. apply PointerData_constructor_inr in H as (ev & eo & _ & _ & -> & _).
  split; reflexivity.
Qed.

Lemma step_getters identifier start x y :
  InputStep x y ->
  Input.identifier (snd x) = identifier /\
  Input.startTime (snd x) = start /\
  Input.phase (snd x)
    = PHASE (Event.type (PointerData.originalEvent (Input.current (snd x)))) ->
  Input.identifier (snd y) = identifier /\
  Input.startTime (snd y) = start /\
  Input.phase (snd y)
    = PHASE (Event.type (PointerData.originalEvent (Input.current (snd y)))).
Proof.
  intros [Hup | Hother] (Hid & Hstart & Hphase).
  - destruct Hup as [event w input input' w' Hup].
    apply Input_update_inr in Hup as (pd & Hpd & ->).
    apply PointerData_type_of_event in Hpd as [Htype _].
    simpl in *. unfold Input.phase. simpl. auto.
  - destruct Hother as [id w input r input' w' Hget | w w' input Hle];
      [| auto].
    simpl in *. apply getProgressOfGesture_inr in Hget as [[-> ->] | (Hin & _ & -> & ->)].
    + auto.
    + auto.
Qed.

(** X3. The constructor installs one and the same PointerData as initial,
    current and previous data, and an empty progress table. Whatever
    happens to the input afterwards, [identifier] stays the identifier
    given to the constructor, [startTime] stays the reading of the clock
    at the construction, and [phase] is the phase of the type of the event
    that the current data wraps. *)
Theorem Input_getters_over_lifetime
    (event0 : option Event.t) (identifier : Z) (w0 : World)
    (input0 : Input.t) (w1 : World) :
  Input.constructor event0 identifier w0 = inr (input0, w1) ->
  (Input.initial input0 = Input.current input0 /\
   Input.previous input0 = Input.current input0 /\
   Input.progress input0 = ∅ /\
   event0 = Some (PointerData.originalEvent (Input.current input0))) /\
  forall w input,
    rtc InputStep (w1, input0) (w, input) ->
    Input.identifier input = identifier /\
    Input.startTime input = clock w0 /\
    Input.phase input
      = PHASE (Event.type (PointerData.originalEvent (Input.current input))).
Proof.
  intros Hnew.
  apply Input_constructor_inr in Hnew as (pd & path & Hpd & _ & ->).
  pose proof (PointerData_type_of_event _ _ _ _ _ Hpd) as [Htype Htime].
  split.
  - simpl. repeat split.
    apply PointerData_constructor_inr in Hpd as (ev & eo & -> & _ & -> & _).
    reflexivity.
  - intros w input Hlife.
    apply (steps_preserve
             (fun x =>
                Input.identifier (snd x) = identifier /\
                Input.startTime (snd x) = clock w0 /\
                Input.phase (snd x)
                = PHASE (Event.type
                           (PointerData.originalEvent (Input.current (snd x)))))
             (fun x y Hx Hxy => step_getters identifier (clock w0) x y Hxy Hx)
             _ _ Hlife).
    unfold Input.startTime, Input.phase. simpl. auto.
Qed.

(** Built at 1000 from a mouse down, updated at 1016 from a mouse up. *)
Lemma Input_getters_over_lifetime_witness :
  exists input0 w1 input w,
    Input.constructor (Some (Sample.mousedown Sample.elementNode 10 10)) 7
      Sample.world0 = inr (input0, w1) /\
    Input.update (Some (Sample.mouseup Sample.elementNode 15 12)) input0
      {| clock := 1016; nextId := nextId w1; records := records w1 |}
      = inr (input, w) /\
    Input.identifier input = 7 /\
    Input.startTime input = 1000 /\
    Input.phase input = Some PEnd.
Proof.
  destruct (Input.constructor (Some (Sample.mousedown Sample.elementNode 10 10))
              7 Sample.world0) as [e | [input0 w1]] eqn:Hnew;
    [discriminate |].
  destruct (Input.update (Some (Sample.mouseup Sample.elementNode 15 12)) input0
              {| clock := 1016; nextId := nextId w1; records := records w1 |})
    as [e | [input w]] eqn:Hup.
  { injection Hnew as <- <-. discriminate. }
  exists input0, w1, input, w.
  destruct (Input_getters_over_lifetime _ _ _ _ _ Hnew) as [_ Hlife].
  assert (rtc InputStep (w1, input0) (w, input)) as Hsteps.
  { eapply rtc_l; [right; apply step_elsewhere |
                   eapply rtc_l; [left; eapply step_update; exact Hup |
                                  apply rtc_refl]].
    simpl. lia. }
  destruct (Hlife w input Hsteps) as (Hid & Hstart & Hphase).
  split; [reflexivity |]. split; [exact Hup |].
  split; [exact Hid |]. split; [exact Hstart |].
  rewrite Hphase. injection Hnew as <- <-. injection Hup as <- <-. reflexivity.
Defined.

(** X4. [update] assigns [previous] before it builds the new PointerData.
    When the construction throws (no event, or changed touches without
    the identifier of the input), the input is left with [previous]
    overwritten by [current]: what [previous] held is lost although no new
    data came in; [current], [initial] and the rest are as they were.
    When it does not throw, the outcome is that of [Input.update]. *)
Theorem update_throw_overwrites_previous
    (event : option Event.t) (this : Input.t) (w : World) :
  (forall input' w',
      updateInPlace event this w = inr (input', w') <->
      Input.update event this w = inr (input', w')) /\
  (forall e this',
      updateInPlace event this w = inl (e, this') ->
      Input.update event this w = inl e /\
      noUsableEvent event (Input.identifier this) /\
      Input.previous this' = Input.current this /\
      Input.current this' = Input.current this /\
      Input.initial this' = Input.initial this /\
      Input.identifier this' = Input.identifier this /\
      Input.initialElements this' = Input.initialElements this /\
      Input.progress this' = Input.progress this) /\
  (noUsableEvent event (Input.identifier this) ->
   exists e this', updateInPlace event this w = inl (e, this')).
Proof.
  unfold updateInPlace. simpl.
  destruct (PointerData.constructor event (Input.identifier this) w)
    as [e | [pd w1]] eqn:Hpd.
  - split; [| split].
    + intros input' w'. rewrite (Input_update_inl _ _ _ _ Hpd).
      split; discriminate.
    + intros e' this' [= <- <-]. simpl.
      split; [apply Input_update_inl; exact Hpd |].
      split; [apply (PointerData_constructor_inl event _ w); eauto |].
      repeat split.
    + intros _. eauto.
  - split; [| split].
    + intros input' w'. rewrite (Input_update_ok _ _ _ _ _ Hpd).
      split; intros [= <- <-]; reflexivity.
    + intros e this' [=].
    + intros Hno. apply (PointerData_constructor_inl event _ w) in Hno as [e He].
      congruence.
Qed.

(** An input with distinct previous and current data, updated from a touch
    event that does not carry its identifier. *)
Lemma update_throw_overwrites_previous_witness :
  exists input0 w1 input1 w2 e input2,
    Input.constructor (Some (Sample.touchstart Sample.elementNode 5 10 10)) 5
      Sample.world0 = inr (input0, w1) /\
    Input.update (Some (Sample.touchmove Sample.elementNode 5 15 12)) input0 w1
      = inr (input1, w2) /\
    Input.previous input1 <> Input.current input1 /\
    updateInPlace (Some Sample.touchevent) input1 w2 = inl (e, input2) /\
    Input.previous input2 = Input.current input1.
Proof.
  destruct (Input.constructor (Some (Sample.touchstart Sample.elementNode 5 10 10))
              5 Sample.world0) as [e | [input0 w1]] eqn:Hnew;
    [discriminate |].
  destruct (Input.update (Some (Sample.touchmove Sample.elementNode 5 15 12))
              input0 w1) as [e | [input1 w2]] eqn:Hup.
  { injection Hnew as <- <-. discriminate. }
  destruct (update_throw_overwrites_previous (Some Sample.touchevent) input1 w2)
    as (_ & Hthrow & Hno).
  destruct Hno as (e & input2 & Hin).
  { right. exists Sample.touchevent, [Touch.mk 17 (-2) (-12); Touch.mk 42 343 117].
    split; [reflexivity |]. split; [reflexivity |].
    injection Hnew as <- <-. injection Hup as <- <-. simpl.
    intros t [<- | [<- | []]]; simpl; lia. }
  exists input0, w1, input1, w2, e, input2.
  split; [reflexivity |]. split; [exact Hup |].
  split; [injection Hnew as <- <-; injection Hup as <- <-; discriminate |].
  split; [exact Hin |].
  exact (proj1 (proj2 (proj2 (Hthrow e input2 Hin)))).
Defined.

(** X5. [getProgressOfGesture] always returns, and touches nothing but
    the entry it is asked for: the data, the identifier and the start
    elements of the input, the entries of the other gesture ids, the clock
    and the contents of every other record stay as they are. When the id
    has its record already, or is the name of a property every object
    inherits, nothing changes at all; in the latter case, no record having
    been created for that name, what is returned is the built-in object,
    the same for every input. For any other id a record is returned and
    entered under the id, and a record created on the way is none of the
    records any other input holds. *)
Theorem getProgressOfGesture_frame (id : string) (input : Input.t) (w : World) :
  exists o input' w',
    Input.getProgressOfGesture id input w = inr ((o, input'), w') /\
    (Input.initial input' = Input.initial input /\
     Input.current input' = Input.current input /\
     Input.previous input' = Input.previous input /\
     Input.identifier input' = Input.identifier input /\
     Input.initialElements input' = Input.initialElements input) /\
    (forall id', id' <> id ->
                 Input.progress input' !! id' = Input.progress input !! id') /\
    clock w' = clock w /\
    (forall r', o <> RecordAt r' -> records w' !! r' = records w !! r') /\
    (is_Some (Input.progress input !! id) \/ inherited id = true ->
     input' = input /\ w' = w) /\
    (Input.progress input !! id = None -> inherited id = true ->
     o = Builtin id) /\
    (inherited id = false ->
     exists r,
       o = RecordAt r /\
       Input.progress input' !! id = Some r /\
       (Input.progress input !! id = None ->
        forall other id' r',
          allocated (w, other) ->
          Input.progress other !! id' = Some r' -> r' <> r)).
Proof.
  destruct (Input.progress input !! id) as [r |] eqn:Hid.
  - exists (RecordAt r), input, w.
    split; [apply getProgressOfGesture_known; exact Hid |].
    split; [repeat split |]. split; [reflexivity |]. split; [reflexivity |].
    split; [reflexivity |]. split; [auto |]. split; [discriminate |].
    intros _. exists r. split; [reflexivity |]. split; [exact Hid | discriminate].
  - destruct (inherited id) eqn:Hinh.
    + exists (Builtin id), input, w.
      split; [apply getProgressOfGesture_inherited; assumption |].
      split; [repeat split |]. split; [reflexivity |]. split; [reflexivity |].
      split; [reflexivity |]. split; [auto |]. split; [reflexivity |].
      discriminate.
    + eexists _, _, _.
      split; [apply getProgressOfGesture_new; assumption |].
      simpl. split; [repeat split |].
      split; [intros id' Hne; apply lookup_insert_ne; congruence |].
      split; [reflexivity |].
      split; [intros r' Hne; apply lookup_insert_ne; congruence |].
      split; [intros [[r Hr] | Hr]; discriminate |].
      split; [discriminate |].
      intros _. exists (nextId w). split; [reflexivity |].
      split; [apply lookup_insert_eq |].
      intros _ other id' r' (_ & _ & _ & Hlt & _) Hr'.
      specialize (Hlt id' r' Hr'). lia.
Qed.

(** Two inputs in one world: the record the second creates for "tap" is
    not the record the first holds for "tap". *)
Lemma getProgressOfGesture_frame_witness :
  exists a w1 r a' w2 b w3 r' b' w4,
    Input.constructor (Some (Sample.touchstart Sample.elementNode 1 10 10)) 1
      Sample.world0 = inr (a, w1) /\
    Input.getProgressOfGesture "tap" a w1 = inr ((RecordAt r, a'), w2) /\
    Input.constructor (Some (Sample.touchstart Sample.elementNode 2 20 20)) 2
      w2 = inr (b, w3) /\
    Input.getProgressOfGesture "tap" b w3 = inr ((RecordAt r', b'), w4) /\
    r <> r'.
Proof.
  destruct (Input.constructor (Some (Sample.touchstart Sample.elementNode 1 10 10))
              1 Sample.world0) as [e | [a w1]] eqn:Ha; [discriminate |].
  destruct (getProgressOfGesture_frame "tap" a w1)
    as (o & a' & w2 & Hget & _ & _ & _ & _ & _ & _ & Hown).
  destruct (Hown eq_refl) as (r & -> & Hr & _).
  destruct (Input.constructor (Some (Sample.touchstart Sample.elementNode 2 20 20))
              2 w2) as [e | [b w3]] eqn:Hb.
  { injection Ha as <- <-. vm_compute in Hget. injection Hget as <- <- <-.
    discriminate. }
  destruct (getProgressOfGesture_frame "tap" b w3)
    as (o' & b' & w4 & Hget' & _ & _ & _ & _ & _ & _ & Hown').
  destruct (Hown' eq_refl) as (r' & -> & _ & Hfresh).
  exists a, w1, r, a', w2, b, w3, r', b', w4.
  split; [reflexivity |]. split; [exact Hget |]. split; [exact Hb |].
  split; [exact Hget' |].
  apply (Hfresh
           ltac:(apply Input_constructor_inr in Hb as (pd & path & _ & _ & ->);
                 reflexivity)
           a' "tap"%string r); [| exact Hr].
  assert (allocated (w2, a')) as Halloc.
  { eapply step_allocated;
      [eapply constructor_allocated; exact Ha |
       right; eapply step_progress; exact Hget]. }
  eapply (step_allocated (w2, a') (w3, a')); [exact Halloc |].
  right. apply step_elsewhere.
  apply Input_constructor_inr in Hb as (pd & path & Hpd & _ & _).
  apply PointerData_constructor_inr in Hpd as (ev & eo & _ & _ & _ & ->).
  simpl. lia.
Defined.

(** ** Binding and unbinding *)

Lemma unbind_eq element gesture r :
  Region.unbind element gesture r =
    (Region.set_bindings
       (List.filter (fun b => negb (toUnbind element gesture b))
                    (Region.bindings r)) r,
     List.filter (toUnbind element gesture) (Region.bindings r)).
Proof.
  unfold Region.unbind, Region.retrieveBindingsByElement.
  apply (unbind_loop element gesture (Region.bindings r) [] r []);
    [reflexivity | intros b []].
Qed.

Lemma bind_eq element gesture handler r w :
  Region.bind element gesture handler r w =
    inr (Region.set_bindings
           (Region.bindings r ++ [Binding.mk (nextId w) element gesture handler]) r,
         {| clock := clock w; nextId := Pos.succ (nextId w);
            records := records w |}).
Proof. reflexivity. Qed.

Lemma filter_none {A} (f : A -> bool) (l : list A) :
  (forall a, In a l -> f a = false) -> List.filter f l = [].
Proof.
  induction l as [| a l IH]; intros H; [reflexivity |].
  simpl. rewrite (H a (or_introl eq_refl)). apply IH.
  intros a' Ha'. apply H. right. exact Ha'.
Qed.

Lemma filter_all {A} (f : A -> bool) (l : list A) :
  (forall a, In a l -> f a = true) -> List.filter f l = l.
Proof.
  induction l as [| a l IH]; intros H; [reflexivity |].
  simpl. rewrite (H a (or_introl eq_refl)). f_equal. apply IH.
  intros a' Ha'. apply H. right. exact Ha'.
Qed.

Lemma filter_swap {A} (f g : A -> bool) (l : list A) :
  List.filter f (List.filter g l) = List.filter g (List.filter f l).
Proof.
  induction l as [| a l IH]; [reflexivity |].
  simpl. destruct (f a) eqn:Hf, (g a) eqn:Hg; simpl;
    rewrite ?Hf, ?Hg, IH; reflexivity.
Qed.

(** X6. [bind] cannot fail and does not look at what is bound already: it
    adds one new binding at the end of the list and leaves the rest of the
    region alone. An [unbind] of the same element right after (with no
    gesture, or with the same gesture) returns what it would have returned
    before, followed by the new binding, and leaves the region as it would
    have left it; an [unbind] that does not concern the new binding keeps
    it, last. On an element that had no binding, [bind] then
    [unbind(element)] gives the region back. *)
Theorem bind_then_unbind
    (element : Element) (gesture handler : positive) (r : Region.t) (w : World) :
  let b := Binding.mk (nextId w) element gesture handler in
  exists r1 w1,
    Region.bind element gesture handler r w = inr (r1, w1) /\
    Region.bindings r1 = Region.bindings r ++ [b] /\
    Region.state r1 = Region.state r /\
    (forall go,
        go = None \/ go = Some gesture ->
        snd (Region.unbind element go r1)
          = snd (Region.unbind element go r) ++ [b] /\
        fst (Region.unbind element go r1) = fst (Region.unbind element go r)) /\
    (forall element' go,
        toUnbind element' go b = false ->
        snd (Region.unbind element' go r1) = snd (Region.unbind element' go r) /\
        Region.bindings (fst (Region.unbind element' go r1))
          = Region.bindings (fst (Region.unbind element' go r)) ++ [b]) /\
    ((forall b', In b' (Region.bindings r) -> Binding.element b' <> element) ->
     Region.unbind element None r1 = (r, [b])).
Proof.
  intros b. eexists _, _. split; [apply bind_eq |].
  fold b. simpl. split; [reflexivity |]. split; [reflexivity |].
  split; [| split].
  - intros go Hgo. rewrite !unbind_eq. simpl. rewrite !List.filter_app. simpl.
    assert (toUnbind element go b = true) as ->.
    { unfold toUnbind, b. simpl. rewrite Pos.eqb_refl.
      destruct Hgo as [-> | ->]; [reflexivity |]. simpl. apply Pos.eqb_refl. }
    simpl. rewrite app_nil_r. split; reflexivity.
  - intros element' go Hb. rewrite !unbind_eq. simpl. rewrite !List.filter_app.
    simpl. rewrite Hb. simpl. rewrite app_nil_r. split; reflexivity.
  - intros Hnone. rewrite unbind_eq. simpl. rewrite !List.filter_app. simpl.
    assert (toUnbind element None b = true) as ->.
    { unfold toUnbind, b. simpl. rewrite Pos.eqb_refl. reflexivity. }
    assert (forall b', In b' (Region.bindings r) ->
                       toUnbind element None b' = false) as Hfalse.
    { intros b' Hb'. unfold toUnbind.
      destruct (Pos.eqb_spec (Binding.element b') element) as [Heq | _];
        [| reflexivity].
      exfalso. exact (Hnone b' Hb' Heq). }
    simpl. rewrite app_nil_r, (filter_none _ _ Hfalse).
    rewrite filter_all.
    + rewrite set_bindings_twice, set_bindings_id. reflexivity.
    + intros b' Hb'. rewrite (Hfalse b' Hb'). reflexivity.
Qed.

(** A region with a binding elsewhere: bind on [element], unbind it. *)
Lemma bind_then_unbind_witness :
  let r := Region.mk [Sample.onElsewhere] Sample.body false true ∅ in
  exists r1 w1,
    Region.bind Sample.element 1 50 r Sample.world0 = inr (r1, w1) /\
    Region.unbind Sample.element None r1
      = (r, [Binding.mk 100 Sample.element 1 50]).
Proof.
  intros r.
  destruct (bind_then_unbind Sample.element 1 50 r Sample.world0)
    as (r1 & w1 & Hbind & _ & _ & _ & _ & Hback).
  exists r1, w1. split; [exact Hbind |]. apply Hback.
  intros b' [<- | []]. discriminate.
Defined.

(** X7. [unbind] is idempotent: a second call with the same arguments
    returns the empty list and leaves the region as the first call left
    it. When nothing matches (no binding of the element, or none of the
    gesture), it returns the empty list and the region is unchanged. *)
Theorem unbind_twice (element : Element) (gesture : option positive)
    (r : Region.t) :
  Region.unbind element gesture (fst (Region.unbind element gesture r))
    = (fst (Region.unbind element gesture r), []) /\
  ((forall b, In b (Region.bindings r) -> toUnbind element gesture b = false) ->
   Region.unbind element gesture r = (r, [])) /\
  (Region.retrieveBindingsByElement element r = [] ->
   Region.unbind element gesture r = (r, [])).
Proof.
  assert ((forall b, In b (Region.bindings r) ->
                     toUnbind element gesture b = false) ->
          Region.unbind element gesture r = (r, [])) as Hnone.
  { intros H. rewrite unbind_eq, (filter_none _ _ H), filter_all.
    - rewrite set_bindings_id. reflexivity.
    - intros b Hb. rewrite (H b Hb). reflexivity. }
  split; [| split; [exact Hnone |]].
  - rewrite (unbind_eq element gesture r). simpl. rewrite unbind_eq. simpl.
    rewrite set_bindings_twice. f_equal.
    + f_equal. apply filter_all. intros b Hb.
      apply filter_In in Hb as [_ Hb]. exact Hb.
    + apply filter_none. intros b Hb. apply filter_In in Hb as [_ Hb].
      destruct (toUnbind element gesture b); [discriminate | reflexivity].
  - intros Hempty. apply Hnone. intros b Hb. unfold toUnbind.
    destruct (Pos.eqb (Binding.element b) element) eqn:Hel; [| reflexivity].
    assert (In b (Region.retrieveBindingsByElement element r)) as Hin
      by (apply filter_In; auto).
    rewrite Hempty in Hin. destruct Hin.
Qed.

Lemma unbind_twice_witness :
  Region.unbind Sample.childElement None Sample.region = (Sample.region, []).
Proof.
  apply (proj2 (proj2 (unbind_twice Sample.childElement None Sample.region))).
  reflexivity.
Defined.

(** X8. Two [unbind]s on different elements do not interfere: the second
    returns what it would have returned alone, and the region left is the
    same in either order. For any two [unbind]s the bindings left are the
    same in either order. *)
Theorem unbind_commutes
    (e1 e2 : Element) (g1 g2 : option positive) (r : Region.t) :
  fst (Region.unbind e2 g2 (fst (Region.unbind e1 g1 r)))
    = fst (Region.unbind e1 g1 (fst (Region.unbind e2 g2 r))) /\
  (e1 <> e2 ->
   snd (Region.unbind e2 g2 (fst (Region.unbind e1 g1 r)))
     = snd (Region.unbind e2 g2 r) /\
   snd (Region.unbind e1 g1 (fst (Region.unbind e2 g2 r)))
     = snd (Region.unbind e1 g1 r)).
Proof.
  rewrite (unbind_eq e1 g1 r), (unbind_eq e2 g2 r). simpl.
  rewrite !unbind_eq. simpl. rewrite !set_bindings_twice. split.
  - f_equal. apply filter_swap.
  - assert (forall a b ga gb bs,
               a <> b ->
               List.filter (toUnbind b gb)
                 (List.filter (fun x => negb (toUnbind a ga x)) bs)
               = List.filter (toUnbind b gb) bs) as Hind.
    { intros a b ga gb bs Hne. rewrite filter_swap. apply filter_all.
      intros x Hx. apply filter_In in Hx as [_ Hx].
      unfold toUnbind in *. apply andb_prop in Hx as [Hel _].
      apply Pos.eqb_eq in Hel.
      destruct (Pos.eqb_spec (Binding.element x) a); [congruence | reflexivity]. }
    intros Hne. split; apply Hind; congruence.
Qed.

Lemma unbind_commutes_witness :
  snd (Region.unbind Sample.elsewhere None
         (fst (Region.unbind Sample.element None Sample.region)))
    = [Sample.onElsewhere].
Proof.
  rewrite (proj1 (proj2 (unbind_commutes Sample.element Sample.elsewhere
                           None None Sample.region)
                        ltac:(discriminate))).
  reflexivity.
Defined.

(** ** The identities of the bindings *)

Lemma rtc_preserve {A} (R : A -> A -> Prop) (P : A -> Prop) :
  (forall x y, P x -> R x y -> P y) ->
  forall x y, rtc R x y -> P x -> P y.
Proof.
  intros Hstep x y Hrtc. induction Hrtc as [| x y z Hxy _ IH]; [auto |].
  intros Hx. apply IH. eapply Hstep; eassumption.
Qed.

Lemma PointerData_constructor_nextId event identifier w pd w' :
  PointerData.constructor event identifier w = inr (pd, w') ->
  nextId w' = Pos.succ (nextId w).
Proof.
  intros H. apply PointerData_constructor_inr in H as (ev & eo & _ & _ & _ & ->).
  reflexivity.
Qed.

Lemma updateInput_nextId ev id (st : State.t) w (st1 : State.t) w1 :
  State.updateInput ev id st w = inr (st1, w1) ->
  (nextId w <= nextId w1)%positive.
Proof.
  intros H. apply updateInput_inr in H as (input1 & _ & _ & Hcase).
  destruct (st !! id) as [input |].
  - destruct Hcase as [Hup _]. apply Input_update_inr in Hup as (pd & Hpd & _).
    apply PointerData_constructor_nextId in Hpd. lia.
  - destruct Hcase as [Hnew _].
    apply Input_constructor_inr in Hnew as (pd & path & Hpd & _ & _).
    apply PointerData_constructor_nextId in Hpd. lia.
Qed.

Lemma reconcile_nextId ev (pairs : list (Z * bool)) :
  forall (st : State.t) w (st1 : State.t) w1,
    foldM (fun st p => State.updateInput ev (fst p) st) pairs st w
      = inr (st1, w1) ->
    (nextId w <= nextId w1)%positive.
Proof.
  induction pairs as [| [id0 isNew] pairs IH]; intros st w st1 w1 H.
  - simpl in H. unfold ret in H. injection H as <- <-. lia.
  - simpl in H. apply bind_inr in H as (st' & w' & Hone & Hrest).
    apply updateInput_nextId in Hone. apply IH in Hrest. lia.
Qed.

Lemma NoDup_map_filter {A B} (f : A -> B) (p : A -> bool) (l : list A) :
  NoDup (List.map f l) -> NoDup (List.map f (List.filter p l)).
Proof.
  induction l as [| a l IH]; simpl; intros H; [exact H |].
  inversion H as [| ? ? Hnin Hnd]; subst.
  destruct (p a); simpl; [| auto].
  constructor; [| auto].
  intros Hin. apply Hnin. apply list_elem_of_In. apply list_elem_of_In in Hin.
  apply in_map_iff in Hin as (x & Hx & Hin).
  apply filter_In in Hin as [Hin _]. apply in_map_iff. eauto.
Qed.

Lemma NoDup_of_map {A B} (f : A -> B) (l : list A) :
  NoDup (List.map f l) -> NoDup l.
Proof.
  induction l as [| a l IH]; simpl; intros H; [constructor |].
  inversion H as [| ? ? Hnin Hnd]; subst. constructor; [| auto].
  intros Hin. apply Hnin. apply list_elem_of_In. apply in_map.
  apply list_elem_of_In. exact Hin.
Qed.

Lemma indexOf_NoDup (l : list Binding.t) :
  NoDup (List.map Binding.bid l) ->
  forall i b, l !! i = Some b -> Region.indexOf b l = Some i.
Proof.
  induction l as [| x l IH]; intros Hnd i b Hi; [discriminate |].
  simpl in Hnd. inversion Hnd as [| ? ? Hnin Hnd']; subst.
  destruct i as [| i]; simpl in *.
  - injection Hi as ->. destruct (decide (b = b)); [reflexivity | contradiction].
  - destruct (decide (x = b)) as [-> | _].
    + exfalso. apply Hnin. apply list_elem_of_In. apply in_map.
      apply list_elem_of_In. eapply list_elem_of_lookup_2. exact Hi.
    + rewrite (IH Hnd' i b Hi). reflexivity.
Qed.

Lemma region_step_distinct gestures extract x y :
  bindingsDistinct x -> RegionStep gestures extract x y -> bindingsDistinct y.
Proof.
  intros Hx Hstep.
  destruct Hstep as [element gesture handler w r r' w' Hbind
                    | element gesture w r
                    | ev w r r' tr w' Hpass];
    destruct Hx as [Hnd Hlt].
  - rewrite bind_eq in Hbind. injection Hbind as <- <-. simpl. split.
    + rewrite map_app. simpl. apply NoDup_app. split; [exact Hnd |].
      split; [| constructor; [intros Hin; inversion Hin | constructor]].
      intros x Hx Hin. apply list_elem_of_In in Hx.
      apply in_map_iff in Hx as (b & <- & Hb).
      apply list_elem_of_In in Hin. destruct Hin as [Heq | []].
      specialize (Hlt b Hb). simpl in Heq. lia.
    + intros b [Hb | [<- | []]]%in_app_or; simpl; [| lia].
      specialize (Hlt b Hb). lia.
  - rewrite unbind_eq. simpl. split.
    + apply NoDup_map_filter. exact Hnd.
    + intros b Hb. apply filter_In in Hb as [Hb _]. auto.
  - apply arbitrate_inr in Hpass as (st1 & Hup & -> & _). simpl.
    unfold State.updateAllInputs in Hup. apply reconcile_nextId in Hup.
    split; [exact Hnd |]. intros b Hb. specialize (Hlt b Hb). lia.
Qed.

(** X9. Every binding of a region has an identity of its own. From a new
    region, through any sequence of [bind], [unbind] and arbitration
    passes, no two bindings of the list share their identity, also when
    they bind the same element, gesture and handler; [indexOf], as [unbind]
    uses it, finds each binding at its own position, never an earlier twin
    and never -1. *)
Theorem region_bindings_distinct
    (gestures : Binding.Gestures) (extract : State.Extractor)
    (element : Element) (capture preventDefault : option bool)
    (w0 w : World) (r : Region.t) :
  rtc (RegionStep gestures extract)
      (w0, Region.constructor element capture preventDefault) (w, r) ->
  NoDup (List.map Binding.bid (Region.bindings r)) /\
  NoDup (Region.bindings r) /\
  (forall i b,
      Region.bindings r !! i = Some b ->
      Region.indexOf b (Region.bindings r) = Some i) /\
  (forall b, In b (Region.bindings r) -> (Binding.bid b < nextId w)%positive).
Proof.
  intros Hrun.
  assert (bindingsDistinct (w, r)) as [Hnd Hlt].
  { apply (rtc_preserve _ bindingsDistinct
             (region_step_distinct gestures extract) _ _ Hrun).
    simpl. split; [constructor | intros b []]. }
  split; [exact Hnd |]. split; [| split; [| exact Hlt]].
  - apply (NoDup_of_map Binding.bid). exact Hnd.
  - apply indexOf_NoDup. exact Hnd.
Qed.

(** The same element, gesture and handler bound twice: two bindings, the
    second found at the second position. *)
Lemma region_bindings_distinct_witness :
  exists r w b1 b2,
    Region.bindings r = [b1; b2] /\
    Binding.element b1 = Binding.element b2 /\
    Binding.gesture b1 = Binding.gesture b2 /\
    Binding.handler b1 = Binding.handler b2 /\
    rtc (RegionStep Sample.gestures Sample.extract)
        (Sample.world0, Region.constructor Sample.body None None) (w, r) /\
    Region.indexOf b2 (Region.bindings r) = Some 1%nat.
Proof.
  destruct (Region.bind Sample.element 1 50
              (Region.constructor Sample.body None None) Sample.world0)
    as [e | [r1 w1]] eqn:H1; [discriminate |].
  destruct (Region.bind Sample.element 1 50 r1 w1)
    as [e | [r2 w2]] eqn:H2; [discriminate |].
  assert (rtc (RegionStep Sample.gestures Sample.extract)
              (Sample.world0, Region.constructor Sample.body None None)
              (w2, r2)) as Hrun.
  { eapply rtc_l; [eapply rstep_bind; exact H1 |].
    eapply rtc_l; [eapply rstep_bind; exact H2 | apply rtc_refl]. }
  destruct (region_bindings_distinct _ _ _ _ _ _ _ _ Hrun) as (_ & _ & Hidx & _).
  exists r2, w2, (Binding.mk 100 Sample.element 1 50),
    (Binding.mk 101 Sample.element 1 50).
  assert (Region.bindings r2
          = [Binding.mk 100 Sample.element 1 50;
             Binding.mk 101 Sample.element 1 50]) as Hbs.
  { injection H1 as <- <-. injection H2 as <- <-. reflexivity. }
  split; [exact Hbs |].
  split; [reflexivity |]. split; [reflexivity |]. split; [reflexivity |].
  split; [exact Hrun |]. apply Hidx. rewrite Hbs. reflexivity.
Defined.

(** ** Binding, unbinding and the passes *)

Lemma unbind_keeps_state element gesture r :
  Region.state (fst (Region.unbind element gesture r)) = Region.state r /\
  Region.element (fst (Region.unbind element gesture r)) = Region.element r /\
  Region.preventDefault (fst (Region.unbind element gesture r))
    = Region.preventDefault r.
Proof. rewrite unbind_eq. simpl. auto. Qed.

(** X11. A binding takes part from the pass after its [bind], whatever
    the inputs have been through: when an input that started inside the
    element is alive, the next pass calls the hook of the new binding for
    the phase of the event, a move or an end included, although the
    gesture was never called for the start of that input. *)
Theorem late_binding_is_dispatched
    (gestures : Binding.Gestures) (extract : State.Extractor)
    (element : Element) (gesture handler : positive)
    (r : Region.t) (w : World) (id : Z) (input : Input.t)
    (ev : Event.t) (phase : Phase) (h : State.t -> JsValue)
    (r1 r' : Region.t) (w1 w' : World) (tr : list Obs) :
  Region.state r !! id = Some input ->
  Input.wasInitiallyInside element input = true ->
  Region.bind element gesture handler r w = inr (r1, w1) ->
  Region.arbitrate gestures extract ev r1 w1 = inr ((r', tr), w') ->
  PHASE (Event.type ev) = Some phase ->
  gestures gesture phase = Some h ->
  exists st,
    In (ObsHook (Binding.mk (nextId w) element gesture handler) phase st) tr /\
    exists input', st !! id = Some input'.
Proof.
  intros Hid Hinside Hbind Hpass Hphase Hh.
  rewrite bind_eq in Hbind. injection Hbind as <- <-.
  apply arbitrate_inr in Hpass as (st1 & Hup & _ & ->). simpl in Hup.
  unfold State.updateAllInputs in Hup.
  destruct (reconcile_origin _ _ _ _ _ _ Hup id) as [Hsame _].
  destruct (Hsame input Hid) as (input1 & Hid1 & Hels).
  exists st1. split; [| eauto].
  apply in_or_app. right. rewrite Hphase.
  eapply dispatch_calls_hook; [| exact Hh].
  apply filter_In. simpl. split; [apply in_or_app; right; left; reflexivity |].
  apply someInputWasInitiallyInside_true. exists id, input1.
  split; [exact Hid1 |]. rewrite Hels.
  apply wasInitiallyInside_true. exact Hinside.
Qed.

(** An input starts on [element] in a region without bindings; a binding
    to [element] comes afterwards; the move calls its hook. *)
Lemma late_binding_is_dispatched_witness :
  exists r1 tr1 w1 r2 w2 r3 tr3 w3 st,
    Region.arbitrate Sample.gestures Sample.extract
      (Sample.mousedown Sample.elementNode 10 10)
      (Region.constructor Sample.body None None) Sample.world0
      = inr ((r1, tr1), w1) /\
    hookCalls tr1 = [] /\
    Region.bind Sample.element 1 50 r1 w1 = inr (r2, w2) /\
    Region.arbitrate Sample.gestures Sample.extract
      (Sample.mousemove Sample.elementNode 15 12) r2 w2 = inr ((r3, tr3), w3) /\
    In (ObsHook (Binding.mk (nextId w1) Sample.element 1 50) PMove st) tr3.
Proof.
  destruct (Region.arbitrate Sample.gestures Sample.extract
              (Sample.mousedown Sample.elementNode 10 10)
              (Region.constructor Sample.body None None) Sample.world0)
    as [e | [[r1 tr1] w1]] eqn:H1; [vm_compute in H1; discriminate |].
  pose proof H1 as E1. vm_compute in E1. injection E1 as <- <- <-.
  match type of H1 with _ = inr ((?r, ?t), ?w) =>
    set (r1 := r) in *; set (tr1 := t) in *; set (w1 := w) in * end.
  destruct (Region.bind Sample.element 1 50 r1 w1)
    as [e | [r2 w2]] eqn:H2; [discriminate |].
  destruct (Region.arbitrate Sample.gestures Sample.extract
              (Sample.mousemove Sample.elementNode 15 12) r2 w2)
    as [e | [[r3 tr3] w3]] eqn:H3.
  { injection H2 as <- <-. vm_compute in H3. discriminate. }
  destruct (Region.state r1 !! 0) as [input |] eqn:Hin;
    [| vm_compute in Hin; discriminate].
  destruct (late_binding_is_dispatched Sample.gestures Sample.extract
              Sample.element 1 50 r1 w1 0 input _ PMove
              (fun st => VNum (Z.of_nat (size st))) _ _ _ _ _
              Hin
              ltac:(vm_compute in Hin; injection Hin as <-; vm_compute; reflexivity)
              H2 H3 eq_refl eq_refl) as (st & Hhook & _).
  exists r1, tr1, w1, r2, w2, r3, tr3, w3, st.
  split; [reflexivity |]. split; [reflexivity |]. split; [exact H2 |].
  split; [exact H3 |]. exact Hhook.
Defined.

(** ** The order of the dispatch *)

Lemma hookCalls_app tr1 tr2 : hookCalls (tr1 ++ tr2) = hookCalls tr1 ++ hookCalls tr2.
Proof. unfold hookCalls. apply flat_map_app. Qed.

Lemma handlerCalls_app tr1 tr2 :
  handlerCalls (tr1 ++ tr2) = handlerCalls tr1 ++ handlerCalls tr2.
Proof. unfold handlerCalls. apply flat_map_app. Qed.

Lemma evaluateHook_calls gestures phase (st : State.t) b :
  hookCalls (Binding.evaluateHook gestures (Some phase) st b)
  = (if hasHook gestures phase b then [(b, phase, st)] else []) /\
  (length (handlerCalls (Binding.evaluateHook gestures (Some phase) st b))
   <= (if hasHook gestures phase b then 1 else 0))%nat /\
  ~ In ObsPreventDefault (Binding.evaluateHook gestures (Some phase) st b).
Proof.
  unfold hasHook, Binding.evaluateHook.
  destruct (gestures (Binding.gesture b) phase) as [h |]; simpl.
  - destruct (isNullish (h st)); simpl.
    + split; [reflexivity |]. split; [lia |]. intros [[=] | []].
    + split; [reflexivity |]. split; [lia |]. intros [[=] | [[=] | []]].
  - split; [reflexivity |]. split; [lia |]. intros [].
Qed.

Lemma dispatch_hookCalls gestures phase (st : State.t) bs :
  hookCalls (flat_map (Binding.evaluateHook gestures (Some phase) st) bs)
  = List.map (fun b => (b, phase, st)) (List.filter (hasHook gestures phase) bs) /\
  (length (handlerCalls
             (flat_map (Binding.evaluateHook gestures (Some phase) st) bs))
   <= length (List.filter (hasHook gestures phase) bs))%nat /\
  ~ In ObsPreventDefault
       (flat_map (Binding.evaluateHook gestures (Some phase) st) bs).
Proof.
  induction bs as [| b bs (IHhooks & IHhandlers & IHnone)];
    [simpl; auto |].
  cbn [flat_map List.filter]. rewrite hookCalls_app, handlerCalls_app, IHhooks.
  rewrite length_app, in_app_iff.
  destruct (evaluateHook_calls gestures phase st b) as (Hh & Hl & Hn).
  rewrite Hh. destruct (hasHook gestures phase b); simpl in *.
  - split; [reflexivity |]. split; [lia | tauto].
  - split; [reflexivity |]. split; [lia | tauto].
Qed.

(** X12. A pass calls [preventDefault] on the event once, before anything
    else, when the region was built to do so, and never otherwise. The
    hooks are then called in the order in which the bindings were
    registered: the hook calls of the pass are, in the order of the list
    of bindings, those of the selected bindings whose gesture has a hook
    for the phase, each once; an event whose type has no phase calls none.
    There are never more handler calls than hook calls. *)
Theorem arbitrate_dispatch_order
    (gestures : Binding.Gestures) (extract : State.Extractor)
    (ev : Event.t) (r : Region.t) (w : World)
    (r' : Region.t) (tr : list Obs) (w' : World) :
  Region.arbitrate gestures extract ev r w = inr ((r', tr), w') ->
  exists (st1 : State.t) rest,
    State.updateAllInputs extract ev (Region.element r) (Region.state r) w
      = inr (st1, w') /\
    tr = (if Region.preventDefault r then [ObsPreventDefault] else []) ++ rest /\
    ~ In ObsPreventDefault rest /\
    hookCalls tr =
      match PHASE (Event.type ev) with
      | None => []
      | Some phase =>
          List.map (fun b => (b, phase, st1))
            (List.filter (hasHook gestures phase)
               (Region.retrieveBindingsByInitialPos (Region.set_state st1 r)))
      end /\
    (length (handlerCalls tr) <= length (hookCalls tr))%nat.
Proof.
  intros Hpass. apply arbitrate_inr in Hpass as (st1 & Hup & -> & ->).
  exists st1. eexists. split; [exact Hup |]. split; [reflexivity |].
  unfold Region.retrieveBindingsByInitialPos. simpl.
  set (selected := List.filter _ (Region.bindings r)).
  rewrite hookCalls_app, handlerCalls_app.
  assert (hookCalls (if Region.preventDefault r then [ObsPreventDefault] else [])
          = []) as -> by (destruct (Region.preventDefault r); reflexivity).
  assert (handlerCalls (if Region.preventDefault r then [ObsPreventDefault] else [])
          = []) as -> by (destruct (Region.preventDefault r); reflexivity).
  simpl. destruct (PHASE (Event.type ev)) as [phase |].
  - destruct (dispatch_hookCalls gestures phase st1 selected)
      as (Hhooks & Hhandlers & Hnone).
    split; [exact Hnone |]. split; [exact Hhooks |].
    rewrite Hhooks, length_map. exact Hhandlers.
  - assert (flat_map (Binding.evaluateHook gestures None st1) selected = [])
      as ->.
    { induction selected as [| b bs IH]; [reflexivity |]. simpl. exact IH. }
    simpl. split; [intros [] |]. split; [reflexivity | lia].
Qed.

(** Two bindings to [element], registered for the handlers 50 and 51 in
    that order: the pass calls their hooks in that order. *)
Lemma arbitrate_dispatch_order_witness :
  let first := Binding.mk 1 Sample.element 1 50 in
  let second := Binding.mk 2 Sample.element 3 51 in
  let r := Region.mk [first; second] Sample.body false true ∅ in
  exists r' tr w',
    Region.arbitrate Sample.gestures Sample.extract
      (Sample.mousedown Sample.elementNode 10 10) r Sample.world0
      = inr ((r', tr), w') /\
    List.map (fun c => fst (fst c)) (hookCalls tr) = [first; second] /\
    List.map fst (handlerCalls tr) = [50%positive; 51%positive] /\
    head tr = Some ObsPreventDefault.
Proof.
  intros first second r.
  destruct (Region.arbitrate Sample.gestures Sample.extract
              (Sample.mousedown Sample.elementNode 10 10) r Sample.world0)
    as [e | [[r' tr] w']] eqn:H1; [vm_compute in H1; discriminate |].
  destruct (arbitrate_dispatch_order _ _ _ _ _ _ _ _ H1)
    as (st1 & rest & Hup & Htr & _ & Hhooks & _).
  exists r', tr, w'. split; [reflexivity |].
  split; [| split].
  - rewrite Hhooks. vm_compute in Hup. injection Hup as <- _.
    vm_compute. reflexivity.
  - vm_compute in H1. injection H1 as _ <- _. vm_compute. reflexivity.
  - rewrite Htr. reflexivity.
Defined.

(** ** Unbinding and the passes *)

(** The hook calls of a pass, by binding and phase, in their order. *)
Lemma pass_hookCalls gestures extract ev r w r' tr w' :
  Region.arbitrate gestures extract ev r w = inr ((r', tr), w') ->
  List.map (fun c => (fst (fst c), snd (fst c))) (hookCalls tr) =
    match PHASE (Event.type ev) with
    | None => []
    | Some phase =>
        List.map (fun b => (b, phase))
          (List.filter (hasHook gestures phase)
             (List.filter
                (fun b =>
                   State.someInputWasInitiallyInside (Binding.element b)
                     (match State.updateAllInputs extract ev (Region.element r)
                              (Region.state r) w with
                      | inr (st1, _) => st1
                      | inl _ => ∅
                      end))
                (Region.bindings r)))
    end.
Proof.
  intros Hpass. apply arbitrate_inr in Hpass as (st1 & Hup & _ & ->).
  rewrite Hup, hookCalls_app.
  assert (hookCalls (if Region.preventDefault r then [ObsPreventDefault] else [])
          = []) as -> by (destruct (Region.preventDefault r); reflexivity).
  simpl. destruct (PHASE (Event.type ev)) as [phase |].
  - destruct (dispatch_hookCalls gestures phase st1
                (List.filter
                   (fun b =>
                      State.someInputWasInitiallyInside (Binding.element b) st1)
                   (Region.bindings r))) as (-> & _).
    rewrite List.map_map. reflexivity.
  - induction (List.filter _ (Region.bindings r)) as [| b bs IH];
      [reflexivity | exact IH].
Qed.

Lemma filter_map_fst {A B} (p : A -> bool) (y : B) (l : list A) :
  List.filter (fun c => p (fst c)) (List.map (fun a => (a, y)) l)
  = List.map (fun a => (a, y)) (List.filter p l).
Proof.
  induction l as [| a l IH]; [reflexivity |].
  simpl. destruct (p a); simpl; rewrite IH; reflexivity.
Qed.

(** X10. After [unbind], a pass on the same event succeeds when it would
    have on the region before, calls no hook of a binding that was
    removed, and calls the hooks of the bindings kept as before: the
    sequence of its hook calls, by binding and phase, is the sequence of
    the pass on the region before with the calls of the removed bindings
    struck out. *)
Theorem unbound_is_not_dispatched
    (gestures : Binding.Gestures) (extract : State.Extractor)
    (element : Element) (gesture : option positive)
    (ev : Event.t) (r : Region.t) (w : World)
    (r0' : Region.t) (tr0 : list Obs) (w0' : World) :
  Region.arbitrate gestures extract ev r w = inr ((r0', tr0), w0') ->
  exists r' tr w',
    Region.arbitrate gestures extract ev
      (fst (Region.unbind element gesture r)) w = inr ((r', tr), w') /\
    Region.bindings r' = Region.bindings (fst (Region.unbind element gesture r)) /\
    (forall b phase st,
        In b (snd (Region.unbind element gesture r)) ->
        ~ In (ObsHook b phase st) tr) /\
    List.map (fun c => (fst (fst c), snd (fst c))) (hookCalls tr)
    = List.filter (fun c => negb (toUnbind element gesture (fst c)))
        (List.map (fun c => (fst (fst c), snd (fst c))) (hookCalls tr0)).
Proof.
  intros Hpass0.
  pose proof (pass_hookCalls _ _ _ _ _ _ _ _ Hpass0) as Hcalls0.
  apply arbitrate_inr in Hpass0 as (st1 & Hup & _ & _).
  destruct (unbind_keeps_state element gesture r) as (Hst & Hel & Hpd).
  assert (State.updateAllInputs extract ev
            (Region.element (fst (Region.unbind element gesture r)))
            (Region.state (fst (Region.unbind element gesture r))) w
          = inr (st1, w0')) as Hup' by (rewrite Hst, Hel; exact Hup).
  pose proof (arbitrate_ok gestures _ _ _ _ _ _ Hup') as Hpass.
  eexists _, _, _. split; [exact Hpass |].
  split; [reflexivity |].
  pose proof (pass_hookCalls _ _ _ _ _ _ _ _ Hpass) as Hcalls.
  rewrite Hup' in Hcalls. rewrite Hup in Hcalls0.
  split.
  - intros b phase st Hb Hin. rewrite unbind_eq in Hb. simpl in Hb.
    apply filter_In in Hb as [_ Hb].
    apply in_app_iff in Hin as [Hin | Hin].
    + destruct (Region.preventDefault (fst (Region.unbind element gesture r)));
        [| destruct Hin].
      destruct Hin as [[=] | []].
    + apply dispatch_hooks in Hin as (Hin & _).
      apply filter_In in Hin as [Hin _]. rewrite unbind_eq in Hin. simpl in Hin.
      apply filter_In in Hin as [_ Hkeep]. rewrite Hb in Hkeep. discriminate.
  - rewrite Hcalls, Hcalls0. destruct (PHASE (Event.type ev)) as [phase |];
      [| reflexivity].
    rewrite (filter_map_fst (fun b => negb (toUnbind element gesture b))).
    f_equal. rewrite unbind_eq. simpl.
    rewrite (filter_swap (fun b => negb (toUnbind element gesture b))
               (hasHook gestures phase)).
    f_equal. apply filter_swap.
Qed.

(** An input on [element]; the binding to [element] is unbound; the move
    calls no hook. *)
Lemma unbound_is_not_dispatched_witness :
  exists r1 tr1 w1 r2 tr2 w2,
    Region.arbitrate Sample.gestures Sample.extract
      (Sample.mousedown Sample.elementNode 10 10) Sample.region Sample.world0
      = inr ((r1, tr1), w1) /\
    hookCalls tr1 <> [] /\
    Region.arbitrate Sample.gestures Sample.extract
      (Sample.mousemove Sample.elementNode 15 12)
      (fst (Region.unbind Sample.element None r1)) w1 = inr ((r2, tr2), w2) /\
    forall phase st, ~ In (ObsHook Sample.onElement phase st) tr2.
Proof.
  destruct (Region.arbitrate Sample.gestures Sample.extract
              (Sample.mousedown Sample.elementNode 10 10)
              Sample.region Sample.world0)
    as [e | [[r1 tr1] w1]] eqn:H1; [vm_compute in H1; discriminate |].
  pose proof H1 as E1. vm_compute in E1. injection E1 as <- <- <-.
  match type of H1 with _ = inr ((?r, ?t), ?w) =>
    set (r1 := r) in *; set (tr1 := t) in *; set (w1 := w) in * end.
  destruct (Region.arbitrate Sample.gestures Sample.extract
              (Sample.mousemove Sample.elementNode 15 12) r1 w1)
    as [e | [[r0' tr0] w0']] eqn:H2; [vm_compute in H2; discriminate |].
  destruct (unbound_is_not_dispatched Sample.gestures Sample.extract
              Sample.element None _ _ _ _ _ _ H2)
    as (r2 & tr2 & w2 & Hpass & _ & Hgone & _).
  exists r1, tr1, w1, r2, tr2, w2.
  split; [reflexivity |]. split; [discriminate |]. split; [exact Hpass |].
  intros phase st. apply Hgone. left. reflexivity.
Defined.
